(** * Duck Machine DM2018S: bit-field codec and CPU sequencing

    A shallow embedding of [bitfield.py] and [cpu.py].

    Python integers are unbounded, so every integer of the source is a [Z]
    and no operation wraps: [<<] is [Z.shiftl], [>>] is [Z.shiftr], [&] is
    [Z.land], [|] is [Z.lor] and [~] is [Z.lnot] (two's complement on an
    unbounded integer, exactly Python's reading of a negative number).
    A failed [assert] and the other exceptions of the source are values of
    [result]. *)

From Stdlib Require Import ZArith Lia Bool Ascii String.
From stdpp Require Import base decidable option list gmap.

Local Open Scope Z_scope.

(** ** Exceptions *)

Inductive exn : Type :=
| AssertionError      (* a failed [assert] *)
| ValueError          (* [int("", 2)] and the like *)
| IndexError          (* tuple index out of range *)
| CollaboratorError.  (* raised inside the decoder, the ALU or the memory *)

Inductive result (A : Type) : Type :=
| Ok (a : A)
| Raise (e : exn).

Arguments Ok {A} a.
Arguments Raise {A} e.

Definition rbind {A B : Type} (r : result A) (k : A -> result B) : result B :=
  match r with
  | Ok a => k a
  | Raise e => Raise e
  end.

Definition py_assert (b : bool) : result unit :=
  if b then Ok tt else Raise AssertionError.

Declare Scope result_scope.
Delimit Scope result_scope with result.
Notation "x <- r ;; k" := (rbind r (fun x => k))
  (at level 90, r at level 89, right associativity) : result_scope.
Notation "'assert!' b ;; k" := (rbind (py_assert b) (fun _ => k))
  (at level 90, b at level 89, right associativity) : result_scope.

(** ** bitfield.py *)

Module BitField.

Local Open Scope result_scope.

Definition WORD_SIZE : Z := 32.

(** [n * c] for a one-character string [c]: the empty string when [n <= 0]. *)
Definition str_mul (n : Z) (c : ascii) : string :=
  Nat.iter (Z.to_nat n) (String c) EmptyString.

(** [int(s, 2)] on a string of binary digits, most significant digit first.
    Python raises [ValueError] on the empty string and on any other
    character. *)
Fixpoint int2_digits (acc : Z) (s : string) : result Z :=
  match s with
  | EmptyString => Ok acc
  | String c s' =>
      if Ascii.eqb c "1" then int2_digits (2 * acc + 1) s'
      else if Ascii.eqb c "0" then int2_digits (2 * acc) s'
      else Raise ValueError
  end.

Definition int2 (s : string) : result Z :=
  match s with
  | EmptyString => Raise ValueError
  | _ => int2_digits 0 s
  end.

(** The object built by [BitField.__init__]: the two bounds and the values
    derived from them. *)
Record BitField : Type := mkBitField {
  from_bit : Z;
  to_bit : Z;
  field_width : Z;
  mask : Z;
  maskout : Z;
  comp : Z;
  sign_bit : Z
}.

(** [_construct_mask]: [assert width >= 0; return int(width * "1", 2)]. *)
Definition _construct_mask (width : Z) : result Z :=
  assert! (width >=? 0) ;;
  int2 (str_mul width "1").

(** [BitField.__init__].  After the two assertions [field_width >= 1], so
    the shift counts below are non-negative (Python raises on a negative
    one). *)
Definition __init__ (from_bit to_bit : Z) : result BitField :=
  assert! ((0 <=? from_bit) && (from_bit <? WORD_SIZE)) ;;
  assert! ((from_bit <=? to_bit) && (to_bit <=? WORD_SIZE)) ;;
  let field_width := 1 + to_bit - from_bit in
  ones <- _construct_mask field_width ;;
  let mask := Z.shiftl ones from_bit in
  Ok {| from_bit := from_bit;
        to_bit := to_bit;
        field_width := field_width;
        mask := mask;
        maskout := Z.lnot mask;
        comp := Z.shiftl 1 field_width;
        sign_bit := Z.shiftl 1 (field_width - 1) |}.

(** The object [__init__] returns when both assertions hold. *)
Definition built (f t : Z) : BitField :=
  {| from_bit := f;
     to_bit := t;
     field_width := 1 + t - f;
     mask := Z.shiftl (Z.ones (1 + t - f)) f;
     maskout := Z.lnot (Z.shiftl (Z.ones (1 + t - f)) f);
     comp := Z.shiftl 1 (1 + t - f);
     sign_bit := Z.shiftl 1 (1 + t - f - 1) |}.

(** [BitField.insert]. *)
Definition insert (self : BitField) (field_value word : Z) : Z :=
  let in_place := Z.shiftl field_value (from_bit self) in
  let in_place := Z.land in_place (mask self) in
  let word := Z.land word (maskout self) in
  Z.lor word in_place.

(** [BitField.extract]. *)
Definition extract (self : BitField) (word : Z) : Z :=
  let field := Z.land word (mask self) in
  Z.shiftr field (from_bit self).

(** [BitField.extract_signed]. *)
Definition extract_signed (self : BitField) (word : Z) : Z :=
  let unsigned := extract self word in
  if Z.shiftr unsigned (field_width self - 1) =? 1
  then unsigned - comp self
  else unsigned.

(** The module-level [sign_extend].  The two [log.debug] calls only format a
    message (the logger is set to INFO) and are left out.  Python's
    [if (field & sign_bit):] tests for a non-zero integer. *)
Definition sign_extend (field width : Z) : result Z :=
  assert! (width >? 1) ;;
  assert! ((0 <=? field) && (field <? Z.shiftl 1 (width + 1))) ;;
  let sign_bit := Z.shiftl 1 (width - 1) in
  let mask := sign_bit - 1 in
  if negb (Z.land field sign_bit =? 0)
  then
    let extended := Z.land field mask - sign_bit in
    Ok extended
  else Ok field.

End BitField.

(** ** cpu.py *)

Module CPU.

(** *** Collaborators

    [cpu.py] imports [instr_format] (Instruction, OpCode, CondFlag, decode),
    [register], [alu], [memory] and [mvc]; none of them is part of the
    sources at hand.  What [CPU.step] needs from the decoder, the ALU, the
    memory and the two enumerations is taken as a parameter, with the
    interface the call sites use.  Each call may raise; [cpu.py] catches
    nothing, so an exception ends the step.  A [get] on the memory returns
    a value and leaves the memory as it is; a [put] gives the memory after
    the write. *)

Record Instruction (CondFlag OpCode : Type) : Type := mkInstruction {
  cond : CondFlag;
  op : OpCode;
  reg_target : Z;
  reg_src1 : Z;
  reg_src2 : Z;
  offset : Z
}.

Arguments mkInstruction {CondFlag OpCode}.
Arguments cond {CondFlag OpCode} _.
Arguments op {CondFlag OpCode} _.
Arguments reg_target {CondFlag OpCode} _.
Arguments reg_src1 {CondFlag OpCode} _.
Arguments reg_src2 {CondFlag OpCode} _.
Arguments offset {CondFlag OpCode} _.

Class Platform : Type := {
  (* instr_format.CondFlag: [&] and the two members the CPU names *)
  CondFlag : Type;
  CondFlag_eq_dec :: EqDecision CondFlag;
  cond_and : CondFlag -> CondFlag -> CondFlag;
  NEVER : CondFlag;
  ALWAYS : CondFlag;
  (* instr_format.OpCode: the three members the CPU names *)
  OpCode : Type;
  OpCode_eq_dec :: EqDecision OpCode;
  LOAD : OpCode;
  STORE : OpCode;
  HALT : OpCode;
  (* members of an enumeration are distinct *)
  LOAD_STORE : LOAD <> STORE;
  LOAD_HALT : LOAD <> HALT;
  STORE_HALT : STORE <> HALT;
  (* instr_format.decode *)
  decode : Z -> result (Instruction CondFlag OpCode);
  (* alu.ALU.exec *)
  alu_exec : OpCode -> Z -> Z -> result (Z * CondFlag);
  (* memory.Memory: the contents behind the connection, [get] and [put] *)
  Memory : Type;
  mem_get : Memory -> Z -> result Z;
  mem_put : Memory -> Z -> Z -> result Memory
}.

(** Modelled from the spec: [register.py] is missing.  A register offers
    [get] and [put]; one fixed variant ignores [put] and always [get]s
    zero ([cpu.py]: "the special ZeroRegister object that is always zero
    regardless of what is stored"). *)
Inductive Register : Type :=
| ZeroRegister
| Reg (val : Z).

Definition Register_get (r : Register) : Z :=
  match r with
  | ZeroRegister => 0
  | Reg val => val
  end.

Definition Register_put (r : Register) (val : Z) : Register :=
  match r with
  | ZeroRegister => ZeroRegister
  | Reg _ => Reg val
  end.

Section Machine.

Context `{P : Platform}.

(** The mutable state a [CPU] object reaches: the memory behind its
    connection, the sixteen register objects of the tuple
    [self.registers], [self.cc] and [self.halted].  [self.alu] has no state
    the CPU reads. *)
Record CPU : Type := mkCPU {
  memory : Memory;
  registers : list Register;
  cc : CondFlag;
  halted : bool
}.

(** [CPUStep]: the event handed to the listeners.  [subject] is the CPU
    itself; a listener that looks at it during [notify] sees the state of
    that moment, which is what the field records here. *)
Record CPUStep : Type := mkCPUStep {
  subject : CPU;
  pc_addr : Z;
  instr_word : Z;
  instr : Instruction CondFlag OpCode
}.

(** What a run shows to the outside, in order. *)
Inductive Event : Type :=
| Notify (e : CPUStep)   (* [self.notify_all(e)] *)
| Input (step_count : Z). (* [input("Step {}; press enter")] *)

(** Computations on the CPU: the state is threaded and survives an
    exception, as the mutations of a Python object do. *)
Definition M (A : Type) : Type := CPU -> CPU * list Event * result A.

Definition ret {A : Type} (a : A) : M A := fun s => (s, [], Ok a).

Definition bind {A B : Type} (m : M A) (k : A -> M B) : M B :=
  fun s =>
    match m s with
    | (s1, t1, Ok a) =>
        match k a s1 with
        | (s2, t2, r) => (s2, t1 ++ t2, r)
        end
    | (s1, t1, Raise e) => (s1, t1, Raise e)
    end.

Definition lift {A : Type} (r : result A) : M A := fun s => (s, [], r).

Definition get_self : M CPU := fun s => (s, [], Ok s).

Definition put_self (s' : CPU) : M unit := fun _ => (s', [], Ok tt).

Definition emit (e : Event) : M unit := fun s => (s, [e], Ok tt).

End Machine.

Declare Scope cpu_scope.
Delimit Scope cpu_scope with cpu.
Notation "x <- m ;; k" := (bind m (fun x => k))
  (at level 90, m at level 89, right associativity) : cpu_scope.
Notation "m ;;; k" := (bind m (fun _ => k))
  (at level 90, right associativity) : cpu_scope.

Section Sequencing.

Context `{P : Platform}.
Local Open Scope cpu_scope.

(** A reference to one of the register objects: its position in the tuple.
    [self.pc] is the object [self.registers[15]]. *)
Definition pc : nat := 15%nat.

(** [self.registers[i]] for a Python integer [i]: a negative index counts
    from the end, anything outside [-len, len) raises [IndexError]. *)
Definition registers_at (i : Z) : M nat :=
  s <- get_self ;;
  let n := Z.of_nat (length (registers s)) in
  if (0 <=? i) && (i <? n) then ret (Z.to_nat i)
  else if (- n <=? i) && (i <? 0) then ret (Z.to_nat (n + i))
  else lift (Raise IndexError).

(** [r.get()] and [r.put(val)] on the register object at position [r]. *)
Definition reg_get (r : nat) : M Z :=
  s <- get_self ;;
  ret (from_option Register_get 0 (registers s !! r)).

Definition reg_put (r : nat) (val : Z) : M unit :=
  s <- get_self ;;
  put_self {| memory := memory s;
              registers := alter (fun o => Register_put o val) r (registers s);
              cc := cc s;
              halted := halted s |}.

(** [self.memory.get(addr)] and [self.memory.put(addr, val)]. *)
Definition memory_get (addr : Z) : M Z :=
  s <- get_self ;;
  lift (mem_get (memory s) addr).

Definition memory_put (addr val : Z) : M unit :=
  s <- get_self ;;
  m <- lift (mem_put (memory s) addr val) ;;
  put_self {| memory := m;
              registers := registers s;
              cc := cc s;
              halted := halted s |}.

Definition set_cc (c : CondFlag) : M unit :=
  s <- get_self ;;
  put_self {| memory := memory s;
              registers := registers s;
              cc := c;
              halted := halted s |}.

Definition set_halted (h : bool) : M unit :=
  s <- get_self ;;
  put_self {| memory := memory s;
              registers := registers s;
              cc := cc s;
              halted := h |}.

(** Modelled from the spec: [mvc.py] is missing.  [notify_all] hands the
    event to the registered listeners, a plain broadcast; what the outside
    sees of [self.notify_all(CPUStep(self, ...))] is one event, carrying the
    CPU as it is at this point. *)
Definition notify_all (pc_addr instr_word : Z)
    (instr : Instruction CondFlag OpCode) : M unit :=
  s <- get_self ;;
  emit (Notify (mkCPUStep s pc_addr instr_word instr)).

(** [CPU.__init__]. *)
Definition __init__ (memory : Memory) : CPU :=
  {| memory := memory;
     registers := ZeroRegister :: replicate 15 (Reg 0);
     cc := ALWAYS;
     halted := false |}.

(** [CPU.step]. *)
Definition step : M unit :=
  (* Fetch *)
  instr_addr <- reg_get pc ;;
  instr_word <- memory_get instr_addr ;;
  (* Decode *)
  instr <- lift (decode instr_word) ;;
  notify_all instr_addr instr_word instr ;;;
  (* Execute *)
  let predicate := cond instr in
  self <- get_self ;;
  if negb (bool_decide (cond_and (cc self) predicate = NEVER)) then
    let opcode := op instr in
    target <- registers_at (reg_target instr) ;;
    src1 <- registers_at (reg_src1 instr) ;;
    left <- reg_get src1 ;;
    src2 <- registers_at (reg_src2 instr) ;;
    right0 <- reg_get src2 ;;
    let right := right0 + offset instr in
    pc0 <- reg_get pc ;;
    reg_put pc (pc0 + 1) ;;;
    rc <- lift (alu_exec opcode left right) ;;
    let '(result, cc') := rc in
    set_cc cc' ;;;
    if bool_decide (opcode = LOAD) then
      memval <- memory_get result ;;
      reg_put target memval
    else if bool_decide (opcode = STORE) then
      val <- reg_get target ;;
      memory_put result val
    else if bool_decide (opcode = HALT) then
      set_halted true
    else
      reg_put target result
  else
    pc0 <- reg_get pc ;;
    reg_put pc (pc0 + 1).

(** The [while not self.halted] loop of [CPU.run], with [step_count] as the
    loop carries it.  [fuel] bounds the number of iterations tried:
    [Some tt] is the loop left because [halted] is set, [None] is the
    loop still going when the fuel is spent. *)
Fixpoint run_loop (fuel : nat) (single_step : bool) (step_count : Z)
    : M (option unit) :=
  self <- get_self ;;
  if negb (halted self) then
    match fuel with
    | O => ret None
    | S fuel' =>
        (if single_step then emit (Input step_count) else ret tt) ;;;
        step ;;;
        run_loop fuel' single_step (step_count + 1)
    end
  else ret (Some tt).

(** [CPU.run]. *)
Definition run (fuel : nat) (from_addr : Z) (single_step : bool)
    : M (option unit) :=
  set_halted false ;;;
  reg_put pc from_addr ;;;
  let step_count := 0 in
  run_loop fuel single_step step_count.

(** The shape [__init__] gives the register tuple and no method changes:
    sixteen objects, a [ZeroRegister] in front of fifteen [Register]s. *)
Definition is_Reg (r : Register) : bool :=
  match r with
  | Reg _ => true
  | ZeroRegister => false
  end.

Definition registers_ok (rs : list Register) : bool :=
  match rs with
  | ZeroRegister :: rest => (length rest =? 15)%nat && forallb is_Reg rest
  | _ => false
  end.

(** What an observer reads: [self.registers[i].get()] for an index [i]
    in [0, 16), and [self.pc.get()]. *)
Definition reg_value (s : CPU) (i : Z) : Z :=
  from_option Register_get 0 (registers s !! Z.to_nat i).

Definition pc_value (s : CPU) : Z := reg_value s 15.

(** A computation that shows nothing to the outside, whatever the state and
    whether or not it raises. *)
Definition silent {A : Type} (m : M A) : Prop :=
  forall s : CPU, (m s).1.2 = [].

(** A computation that keeps the shape of the register tuple, also when it
    raises. *)
Definition keeps_shape {A : Type} (m : M A) : Prop :=
  forall s : CPU,
    registers_ok (registers s) = true ->
    registers_ok (registers (m s).1.1) = true.

(** A computation whose final state always stands in the relation [R] to
    the state it started from, also when it raises. *)
Definition relates {A : Type} (R : CPU -> CPU -> Prop) (m : M A) : Prop :=
  forall s : CPU, R s (m s).1.1.

(** Three such relations: the memory is the same, the halted flag is the
    same, the halted flag is not cleared. *)
Definition same_memory (s s' : CPU) : Prop := memory s' = memory s.

Definition same_halted (s s' : CPU) : Prop := halted s' = halted s.

Definition halted_stays (s s' : CPU) : Prop :=
  halted s = true -> halted s' = true.

(** The register tuple after [self.pc.put(self.pc.get() + 1)]. *)
Definition pc_stepped (s : CPU) : list Register :=
  alter (fun o => Register_put o (pc_value s + 1)) pc (registers s).

(** The CPU as the opcode-specific commit finds it: operands formed, PC
    stepped, flags replaced by those of the ALU. *)
Definition at_commit (s : CPU) (cc' : CondFlag) : CPU :=
  {| memory := memory s;
     registers := pc_stepped s;
     cc := cc';
     halted := halted s |}.

End Sequencing.

End CPU.

(** ** A small platform to run the CPU on

    A decoder over a handful of instruction words, an adding ALU and a
    dictionary as memory: enough to execute [CPU.step] on concrete states. *)

Module Demo.

Import CPU.

Inductive opcode : Type := oHALT | oLOAD | oSTORE | oADD | oSUB.

#[global] Instance opcode_eq_dec : EqDecision opcode.
Proof. solve_decision. Defined.

(** Condition flags as bits: M = 1, Z = 2, P = 4, V = 8. *)
Definition flags_of (v : Z) : Z :=
  if v =? 0 then 2 else if v <? 0 then 1 else 4.

Definition exec (o : opcode) (l r : Z) : result (Z * Z) :=
  match o with
  | oSUB => Ok (l - r, flags_of (l - r))
  | _ => Ok (l + r, flags_of (l + r))
  end.

(** The instructions of the platform: condition, opcode, target, two
    sources, offset.  Condition 15 is ALWAYS, condition 1 is M. *)
Definition halt_r15 : Instruction Z opcode := mkInstruction 15 oHALT 15 0 0 0.
Definition store_r1 : Instruction Z opcode := mkInstruction 15 oSTORE 1 0 0 100.
Definition load_r0 : Instruction Z opcode := mkInstruction 15 oLOAD 0 0 0 100.
Definition load_r2 : Instruction Z opcode := mkInstruction 15 oLOAD 2 0 0 100.
Definition jump_7 : Instruction Z opcode := mkInstruction 15 oADD 15 0 0 7.
Definition add_if_m : Instruction Z opcode := mkInstruction 1 oADD 1 1 1 0.
Definition halt_r0 : Instruction Z opcode := mkInstruction 15 oHALT 0 0 0 0.

Definition decode_word (w : Z) : result (Instruction Z opcode) :=
  match w with
  | 1 => Ok halt_r15
  | 2 => Ok store_r1
  | 3 => Ok load_r0
  | 4 => Ok load_r2
  | 5 => Ok jump_7
  | 6 => Ok add_if_m
  | 7 => Ok halt_r0
  | _ => Raise CollaboratorError
  end.

Definition get (m : gmap Z Z) (addr : Z) : result Z :=
  match m !! addr with
  | Some v => Ok v
  | None => Raise CollaboratorError
  end.

Definition put (m : gmap Z Z) (addr val : Z) : result (gmap Z Z) :=
  Ok (<[addr := val]> m).

#[global] Instance platform : Platform := {|
  CondFlag := Z;
  cond_and := Z.land;
  NEVER := 0;
  ALWAYS := 15;
  OpCode := opcode;
  LOAD := oLOAD;
  STORE := oSTORE;
  HALT := oHALT;
  LOAD_STORE := ltac:(discriminate);
  LOAD_HALT := ltac:(discriminate);
  STORE_HALT := ltac:(discriminate);
  decode := decode_word;
  alu_exec := exec;
  Memory := gmap Z Z;
  mem_get := get;
  mem_put := put
|}.

(** Memory holding the words [ws] from address 0 on. *)
Definition program (ws : list Z) : gmap Z Z :=
  list_to_map (zip (Z.of_nat <$> seq 0 (length ws)) ws).

(** A CPU over [program ws] with [r1 = 7], flags [c], PC = 0. *)
Definition cpu_on (ws : list Z) (c : Z) : CPU :=
  {| memory := program ws;
     registers := ZeroRegister :: Reg 7 :: replicate 14 (Reg 0);
     cc := c;
     halted := false |}.

End Demo.

(** ** A platform whose collaborators fail

    The platform above with two more instruction words, one naming a
    register that does not exist and one whose opcode the ALU refuses. *)

Module Faulty.

Import CPU.

Definition add_r16 : Instruction Z Demo.opcode :=
  mkInstruction 15 Demo.oADD 16 0 0 0.

Definition sub_r1 : Instruction Z Demo.opcode :=
  mkInstruction 15 Demo.oSUB 1 0 0 0.

Definition decode_word (w : Z) : result (Instruction Z Demo.opcode) :=
  match w with
  | 8 => Ok add_r16
  | 9 => Ok sub_r1
  | _ => Demo.decode_word w
  end.

Definition exec (o : Demo.opcode) (l r : Z) : result (Z * Z) :=
  match o with
  | Demo.oSUB => Raise CollaboratorError
  | _ => Demo.exec o l r
  end.

Definition platform : Platform := {|
  CondFlag := Z;
  cond_and := Z.land;
  NEVER := 0;
  ALWAYS := 15;
  OpCode := Demo.opcode;
  LOAD := Demo.oLOAD;
  STORE := Demo.oSTORE;
  HALT := Demo.oHALT;
  LOAD_STORE := ltac:(discriminate);
  LOAD_HALT := ltac:(discriminate);
  STORE_HALT := ltac:(discriminate);
  decode := decode_word;
  alu_exec := exec;
  Memory := gmap Z Z;
  mem_get := Demo.get;
  mem_put := Demo.put
|}.

(** A CPU of this platform over [Demo.program ws], flags ALWAYS, PC = 0. *)
Definition cpu_on (ws : list Z) : @CPU platform :=
  @mkCPU platform (Demo.program ws)
    (ZeroRegister :: Reg 7 :: replicate 14 (Reg 0)) 15 false.

End Faulty.

(** * Properties of the bit-field codec *)

Module BitFieldFacts.

Import BitField.

Lemma int2_digits_ones (n : nat) (acc : Z) :
  int2_digits acc (Nat.iter n (String "1"%char) EmptyString)
  = Ok (acc * 2 ^ Z.of_nat n + Z.ones (Z.of_nat n)).
Proof.
  revert acc. induction n as [|n IH]; intros acc.
  - cbn [Nat.iter nat_rect int2_digits]. f_equal.
    change (Z.of_nat 0) with 0. change (Z.ones 0) with 0. lia.
  - rewrite Nat.iter_succ. cbn [int2_digits].
    change (Ascii.eqb "1" "1") with true. cbv iota.
    rewrite IH. f_equal.
    rewrite !Z.ones_equiv, Nat2Z.inj_succ, Z.pow_succ_r by lia. lia.
Qed.

Lemma _construct_mask_ones (width : Z) :
  1 <= width -> _construct_mask width = Ok (Z.ones width).
Proof.
  intros Hw. unfold _construct_mask, py_assert.
  replace (width >=? 0) with true by (symmetry; apply Z.geb_le; lia).
  cbn [rbind]. unfold str_mul, int2.
  destruct (Z.to_nat width) as [|n] eqn:En; [lia|].
  rewrite Nat.iter_succ.
  change (String "1" ?s) with (Nat.iter 1 (String "1"%char) s).
  rewrite <- Nat.iter_add. rewrite int2_digits_ones.
  f_equal. replace (Z.of_nat (1 + n)) with width by lia. lia.
Qed.

Lemma _construct_mask_0 : _construct_mask 0 = Raise ValueError.
Proof. reflexivity. Qed.

Lemma init_accepts (f t : Z) :
  0 <= f < WORD_SIZE -> f <= t <= WORD_SIZE ->
  __init__ f t = Ok (built f t).
Proof.
  intros Hf Ht. unfold __init__, py_assert.
  replace ((0 <=? f) && (f <? WORD_SIZE)) with true
    by (symmetry; apply andb_true_intro; split; [apply Z.leb_le|apply Z.ltb_lt]; lia).
  replace ((f <=? t) && (t <=? WORD_SIZE)) with true
    by (symmetry; apply andb_true_intro; split; apply Z.leb_le; lia).
  cbn [rbind]. rewrite _construct_mask_ones by lia. reflexivity.
Qed.

Lemma init_rejects (f t : Z) :
  ~ (0 <= f < WORD_SIZE /\ f <= t <= WORD_SIZE) ->
  __init__ f t = Raise AssertionError.
Proof.
  intros H. unfold __init__, py_assert.
  destruct ((0 <=? f) && (f <? WORD_SIZE)) eqn:E1; [|reflexivity].
  destruct ((f <=? t) && (t <=? WORD_SIZE)) eqn:E2; [|reflexivity].
  exfalso. apply H.
  apply andb_prop in E1 as [?%Z.leb_le ?%Z.ltb_lt].
  apply andb_prop in E2 as [?%Z.leb_le ?%Z.leb_le]. lia.
Qed.

Lemma init_inv (f t : Z) (bf : BitField) :
  __init__ f t = Ok bf ->
  (0 <= f < WORD_SIZE /\ f <= t <= WORD_SIZE) /\ bf = built f t.
Proof.
  intros H.
  destruct (decide (0 <= f < WORD_SIZE /\ f <= t <= WORD_SIZE)) as [Hr|Hr].
  - split; [exact Hr|]. destruct Hr as [Hf Ht].
    rewrite (init_accepts f t Hf Ht) in H. congruence.
  - rewrite (init_rejects f t Hr) in H. discriminate.
Qed.

(** The mask has ones exactly at the positions [f .. t]. *)
Lemma built_mask_bit (f t i : Z) :
  0 <= f <= t -> 0 <= i ->
  Z.testbit (mask (built f t)) i = (f <=? i) && (i <=? t).
Proof.
  intros Hf Hi. cbn [mask built].
  rewrite Z.shiftl_spec by lia.
  destruct (Z.leb_spec f i) as [Hfi|Hfi].
  - destruct (Z.leb_spec i t) as [Hit|Hit]; cbn [andb].
    + apply Z.ones_spec_low. lia.
    + apply Z.ones_spec_high. lia.
  - cbn [andb]. apply Z.testbit_neg_r. lia.
Qed.

Lemma insert_bit (f t v w i : Z) :
  0 <= f <= t -> 0 <= i ->
  Z.testbit (insert (built f t) v w) i
  = if (f <=? i) && (i <=? t) then Z.testbit v (i - f) else Z.testbit w i.
Proof.
  intros Hf Hi. unfold insert.
  pose proof (built_mask_bit f t i Hf Hi) as Hm.
  cbn [from_bit maskout mask built] in *.
  rewrite Z.lor_spec, !Z.land_spec, Z.lnot_spec by lia.
  rewrite Hm.
  rewrite Z.shiftl_spec by lia.
  destruct ((f <=? i) && (i <=? t)); cbn [negb]; cbn [andb];
    rewrite ?andb_false_r, ?andb_true_r, ?orb_false_r, ?orb_false_l; reflexivity.
Qed.

Lemma extract_bit (f t w i : Z) :
  0 <= f <= t -> 0 <= i ->
  Z.testbit (extract (built f t) w) i
  = Z.testbit w (i + f) && (i <=? t - f).
Proof.
  intros Hf Hi. unfold extract. cbn [from_bit built].
  rewrite Z.shiftr_spec, Z.land_spec by lia.
  rewrite built_mask_bit by lia.
  replace (f <=? i + f) with true by (symmetry; apply Z.leb_le; lia).
  cbn [andb]. f_equal.
  destruct (Z.leb_spec (i + f) t), (Z.leb_spec i (t - f)); lia || reflexivity.
Qed.

Lemma extract_range (f t w : Z) :
  0 <= f <= t ->
  0 <= extract (built f t) w < 2 ^ (1 + t - f).
Proof.
  intros Hf.
  assert (Hnn : 0 <= extract (built f t) w).
  { unfold extract. apply Z.shiftr_nonneg, Z.land_nonneg. right.
    cbn [mask built]. apply Z.shiftl_nonneg. rewrite Z.ones_equiv.
    pose proof (Z.pow_pos_nonneg 2 (1 + t - f)). lia. }
  split; [exact Hnn|].
  destruct (Z.eq_dec (extract (built f t) w) 0) as [E|E].
  { rewrite E. apply Z.pow_pos_nonneg; lia. }
  apply Z.log2_lt_pow2; [lia|].
  destruct (Z.lt_ge_cases (Z.log2 (extract (built f t) w)) (1 + t - f)) as [?|Hge];
    [assumption|exfalso].
  pose proof (Z.bit_log2 (extract (built f t) w) ltac:(lia)) as Hb.
  rewrite extract_bit in Hb by (try apply Z.log2_nonneg; lia).
  apply andb_prop in Hb as [_ Hb]. apply Z.leb_le in Hb. lia.
Qed.

(** *** Arithmetic of a single bit *)

Lemma land_bit (x k : Z) :
  0 <= k -> Z.land x (Z.shiftl 1 k) = if Z.testbit x k then 2 ^ k else 0.
Proof.
  intros Hk. rewrite Z.shiftl_1_l. apply Z.bits_inj'. intros i Hi.
  rewrite Z.land_spec, Z.pow2_bits_eqb by lia.
  destruct (Z.eqb_spec k i) as [->|Hne].
  - rewrite andb_true_r. destruct (Z.testbit x i); [|apply eq_sym, Z.bits_0].
    rewrite Z.pow2_bits_eqb, Z.eqb_refl by lia. reflexivity.
  - rewrite andb_false_r. destruct (Z.testbit x k); [|apply eq_sym, Z.bits_0].
    rewrite Z.pow2_bits_eqb by lia. symmetry. apply Z.eqb_neq. exact Hne.
Qed.

Lemma testbit_top (a k : Z) :
  0 <= k -> 0 <= a < 2 ^ (k + 1) -> Z.testbit a k = (2 ^ k <=? a).
Proof.
  intros Hk Ha. rewrite Z.pow_add_r, Z.pow_1_r in Ha by lia.
  assert (0 < 2 ^ k) by (apply Z.pow_pos_nonneg; lia).
  destruct (Z.leb_spec (2 ^ k) a) as [Hle|Hlt].
  - apply Z.testbit_true; [lia|].
    replace (a / 2 ^ k) with 1; [reflexivity|].
    apply Z.div_unique with (r := a - 2 ^ k); lia.
  - apply Z.testbit_false; [lia|]. rewrite Z.div_small by lia. reflexivity.
Qed.

Lemma sign_extend_eval (field width : Z) :
  1 < width -> 0 <= field < 2 ^ (width + 1) ->
  sign_extend field width
  = Ok (if Z.testbit field (width - 1)
        then field mod 2 ^ (width - 1) - 2 ^ (width - 1)
        else field).
Proof.
  intros Hw Hf. unfold sign_extend, py_assert.
  replace (width >? 1) with true by (symmetry; apply Z.gtb_lt; lia).
  cbn [rbind]. rewrite (Z.shiftl_1_l (width + 1)).
  replace ((0 <=? field) && (field <? 2 ^ (width + 1))) with true
    by (symmetry; apply andb_true_intro; split; [apply Z.leb_le|apply Z.ltb_lt]; lia).
  cbn [rbind]. rewrite land_bit by lia.
  assert (0 < 2 ^ (width - 1)) by (apply Z.pow_pos_nonneg; lia).
  destruct (Z.testbit field (width - 1)).
  - replace (2 ^ (width - 1) =? 0) with false by (symmetry; apply Z.eqb_neq; lia).
    cbn [negb]. rewrite Z.shiftl_1_l. f_equal.
    rewrite <- Z.land_ones by lia. rewrite Z.ones_equiv.
    unfold Z.pred. reflexivity.
  - reflexivity.
Qed.

Lemma sign_extend_rejects_width (field width : Z) :
  width <= 1 -> sign_extend field width = Raise AssertionError.
Proof.
  intros Hw. unfold sign_extend, py_assert.
  replace (width >? 1) with false; [reflexivity|].
  symmetry. rewrite Z.gtb_ltb. apply Z.ltb_ge. lia.
Qed.

Lemma sign_extend_in_width (field width : Z) :
  1 < width -> 0 <= field < 2 ^ width ->
  sign_extend field width
  = Ok (if Z.testbit field (width - 1) then field - 2 ^ width else field).
Proof.
  intros Hw Hf.
  assert (Hp : 2 ^ width = 2 * 2 ^ (width - 1)).
  { replace width with (width - 1 + 1) at 1 by lia.
    rewrite Z.pow_add_r, Z.pow_1_r by lia. lia. }
  assert (0 < 2 ^ (width - 1)) by (apply Z.pow_pos_nonneg; lia).
  rewrite sign_extend_eval; [|lia|].
  2:{ rewrite Z.pow_add_r, Z.pow_1_r by lia. lia. }
  rewrite (testbit_top field (width - 1)) by (try lia; replace (width - 1 + 1) with width by lia; lia).
  destruct (Z.leb_spec (2 ^ (width - 1)) field) as [Hle|Hlt]; [|reflexivity].
  f_equal.
  replace (field mod 2 ^ (width - 1)) with (field - 2 ^ (width - 1)); [lia|].
  apply Z.mod_unique with (q := 1); lia.
Qed.

Lemma extract_signed_built (f t w : Z) :
  0 <= f <= t ->
  extract_signed (built f t) w
  = if Z.testbit (extract (built f t) w) (t - f)
    then extract (built f t) w - 2 ^ (1 + t - f)
    else extract (built f t) w.
Proof.
  intros Hf. unfold extract_signed.
  pose proof (extract_range f t w Hf) as Hr.
  set (u := extract (built f t) w) in *.
  cbn [field_width comp built].
  replace (1 + t - f - 1) with (t - f) by lia.
  rewrite Z.shiftl_1_l.
  replace (1 + t - f) with (t - f + 1) in * by lia.
  rewrite (testbit_top u (t - f)) by lia.
  rewrite Z.pow_add_r, Z.pow_1_r in Hr by lia.
  assert (0 < 2 ^ (t - f)) by (apply Z.pow_pos_nonneg; lia).
  rewrite Z.shiftr_div_pow2 by lia.
  destruct (Z.leb_spec (2 ^ (t - f)) u) as [Hle|Hlt].
  - replace (u / 2 ^ (t - f)) with 1; [reflexivity|].
    apply Z.div_unique with (r := u - 2 ^ (t - f)); lia.
  - rewrite Z.div_small by lia. reflexivity.
Qed.

(** *** The claims on the codec *)

(** C1.  For every BitField constructed with bounds [0 <= from_bit <= to_bit
    <= 31] (construction then succeeds), every value [v] with
    [0 <= v < 2 ^ field_width] and every word [w]:
    [extract (insert v w) = v].  The word need not even fit 32 bits. *)
Theorem extract_insert_roundtrip (from_bit to_bit : Z) :
  0 <= from_bit <= to_bit -> to_bit <= 31 ->
  exists bf : BitField,
    __init__ from_bit to_bit = Ok bf /\
    forall v w : Z,
      0 <= v < 2 ^ field_width bf ->
      extract bf (insert bf v w) = v.
Proof.
  intros Hf Ht. exists (built from_bit to_bit). split.
  - apply init_accepts; unfold WORD_SIZE; lia.
  - intros v w Hv. cbn [field_width built] in Hv.
    apply Z.bits_inj'. intros i Hi.
    rewrite extract_bit, insert_bit by lia.
    replace (from_bit <=? i + from_bit) with true by (symmetry; apply Z.leb_le; lia).
    cbn [andb]. replace (i + from_bit - from_bit) with i by lia.
    destruct (Z.leb_spec (i + from_bit) to_bit) as [Hin|Hout].
    + replace (i <=? to_bit - from_bit) with true by (symmetry; apply Z.leb_le; lia).
      apply andb_true_r.
    + replace (i <=? to_bit - from_bit) with false by (symmetry; apply Z.leb_gt; lia).
      rewrite andb_false_r. symmetry.
      destruct (Z.eq_dec v 0) as [->|Hnz]; [apply Z.bits_0|].
      apply Z.bits_above_log2; [lia|].
      apply Z.log2_lt_pow2; [lia|].
      apply Z.lt_le_trans with (2 ^ (1 + to_bit - from_bit)); [lia|].
      apply Z.pow_le_mono_r; lia.
Qed.

Lemma extract_insert_roundtrip_witness :
  exists bf : BitField,
    __init__ 4 7 = Ok bf /\
    forall v w : Z, 0 <= v < 2 ^ field_width bf -> extract bf (insert bf v w) = v.
Proof. apply (extract_insert_roundtrip 4 7); lia. Defined.

(** C2 (the code departs from it).  [__init__] asserts
    [from_bit <= to_bit <= WORD_SIZE], so a field that ends at bit 32, one
    past the high-order bit 31 of the docstrings, is constructed: here a
    33-bit field over the whole word and one bit more. *)
Theorem init_accepts_to_bit_32 :
  __init__ 0 32
  = Ok {| from_bit := 0; to_bit := 32; field_width := 33;
          mask := 8589934591; maskout := -8589934592;
          comp := 8589934592; sign_bit := 4294967296 |}.
Proof. reflexivity. Qed.

(** What [__init__] does check: it succeeds exactly on
    [0 <= from_bit < 32] and [from_bit <= to_bit <= 32]; every other pair
    of bounds fails an assertion, [from_bit = 5, to_bit = 2] among them. *)
Lemma init_range (from_bit to_bit : Z) :
  ((exists bf, __init__ from_bit to_bit = Ok bf)
   <-> 0 <= from_bit < 32 /\ from_bit <= to_bit <= 32)
  /\ ((forall bf, __init__ from_bit to_bit <> Ok bf)
      -> __init__ from_bit to_bit = Raise AssertionError).
Proof.
  split; [split|].
  - intros [bf H]. apply init_inv in H as [H _]. exact H.
  - intros [H1 H2]. exists (built from_bit to_bit). apply init_accepts; assumption.
  - intros H. apply init_rejects. intros [H1 H2].
    apply (H (built from_bit to_bit)). apply init_accepts; assumption.
Qed.

Example init_5_2 : __init__ 5 2 = Raise AssertionError.
Proof. reflexivity. Qed.

(** C8.  For every BitField with bounds [0 <= from_bit <= to_bit <= 31],
    every field value [v] and every word [w], [insert v w] has the bit of
    [w] at every position outside [from_bit .. to_bit]. *)
Theorem insert_outside_unchanged (from_bit to_bit : Z) :
  0 <= from_bit <= to_bit -> to_bit <= 31 ->
  exists bf : BitField,
    __init__ from_bit to_bit = Ok bf /\
    forall v w i : Z,
      0 <= i -> i < from_bit \/ to_bit < i ->
      Z.testbit (insert bf v w) i = Z.testbit w i.
Proof.
  intros Hf Ht. exists (built from_bit to_bit). split.
  - apply init_accepts; unfold WORD_SIZE; lia.
  - intros v w i Hi Hout. rewrite insert_bit by lia.
    destruct (Z.leb_spec from_bit i), (Z.leb_spec i to_bit); cbn [andb];
      reflexivity || lia.
Qed.

Lemma insert_outside_unchanged_witness :
  exists bf : BitField,
    __init__ 4 7 = Ok bf /\
    forall v w i : Z,
      0 <= i -> i < 4 \/ 7 < i ->
      Z.testbit (insert bf v w) i = Z.testbit w i.
Proof. apply (insert_outside_unchanged 4 7); lia. Defined.

(** C9.  For [width > 1] and [0 <= field < 2 ^ width], [sign_extend field
    width] is [field - 2 ^ width] when bit [width - 1] of [field] is set and
    [field] otherwise; [0b111] at width 3 gives [-1] and [0b0111] at width 4
    gives [7]; on the field a BitField of that width extracts it returns
    what [extract_signed] returns; for [width <= 1] it fails an assertion. *)
Theorem sign_extend_contract :
  (forall field width : Z,
      1 < width -> 0 <= field < 2 ^ width ->
      sign_extend field width
      = Ok (if Z.testbit field (width - 1) then field - 2 ^ width else field))
  /\ sign_extend 7 3 = Ok (-1)
  /\ sign_extend 7 4 = Ok 7
  /\ (forall (from_bit to_bit : Z) (bf : BitField) (word : Z),
         __init__ from_bit to_bit = Ok bf -> 1 < field_width bf ->
         sign_extend (extract bf word) (field_width bf)
         = Ok (extract_signed bf word))
  /\ (forall field width : Z,
         width <= 1 -> sign_extend field width = Raise AssertionError).
Proof.
  split; [exact sign_extend_in_width|].
  split; [reflexivity|]. split; [reflexivity|].
  split; [|exact sign_extend_rejects_width].
  intros f t bf word Hinit Hw.
  apply init_inv in Hinit as [[Hf Ht] ->]. cbn [field_width built] in *.
  rewrite sign_extend_in_width; [|lia|apply extract_range; lia].
  rewrite extract_signed_built by lia.
  replace (1 + t - f - 1) with (t - f) by lia. reflexivity.
Qed.

Lemma sign_extend_contract_witness :
  sign_extend 5 3 = Ok (-3)
  /\ sign_extend (extract (built 4 7) 2852170480) 4
     = Ok (extract_signed (built 4 7) 2852170480)
  /\ sign_extend 1 1 = Raise AssertionError.
Proof.
  destruct sign_extend_contract as (Hval & _ & _ & Hagree & Hfail).
  split; [|split].
  - apply (Hval 5 3); [lia | split; [lia | reflexivity]].
  - apply (Hagree 4 7 (built 4 7) 2852170480); [reflexivity | reflexivity].
  - apply (Hfail 1 1). lia.
Defined.

(** C10.  For [width > 1], [sign_extend] accepts every field with
    [0 <= field < 2 ^ (width + 1)], one bit wider than [width]; when bit
    [width - 1] of such a field is clear the field comes back unchanged,
    also when it is [2 ^ width] or more: [2 ^ width] itself is such a field
    and is returned as it is, not reduced modulo [2 ^ width]. *)
Theorem sign_extend_over_wide (field width : Z) :
  1 < width -> 0 <= field < 2 ^ (width + 1) ->
  (exists r : Z, sign_extend field width = Ok r)
  /\ (Z.testbit field (width - 1) = false -> sign_extend field width = Ok field)
  /\ (2 ^ width < 2 ^ (width + 1)
      /\ sign_extend (2 ^ width) width = Ok (2 ^ width)).
Proof.
  intros Hw Hf. split; [|split].
  - rewrite sign_extend_eval by assumption. eexists. reflexivity.
  - intros Hb. rewrite sign_extend_eval by assumption. rewrite Hb. reflexivity.
  - assert (0 < 2 ^ width) by (apply Z.pow_pos_nonneg; lia).
    assert (Hlt : 2 ^ width < 2 ^ (width + 1))
      by (rewrite Z.pow_add_r, Z.pow_1_r by lia; lia).
    split; [exact Hlt|].
    rewrite sign_extend_eval by lia.
    rewrite Z.pow2_bits_eqb by lia.
    replace (width =? width - 1) with false by (symmetry; apply Z.eqb_neq; lia).
    reflexivity.
Qed.

Lemma sign_extend_over_wide_witness :
  (exists r : Z, sign_extend 8 3 = Ok r)
  /\ (Z.testbit 8 (3 - 1) = false -> sign_extend 8 3 = Ok 8)
  /\ (2 ^ 3 < 2 ^ (3 + 1) /\ sign_extend (2 ^ 3) 3 = Ok (2 ^ 3)).
Proof. apply (sign_extend_over_wide 8 3); [lia | split; [lia | reflexivity]]. Defined.

End BitFieldFacts.

(** * Properties of the CPU *)

Module CPUFacts.

Import CPU.

Section Facts.

Context `{P : Platform}.
Local Open Scope cpu_scope.

(** *** Running the monad *)

Lemma bind_silent {A B : Type} (m : M A) (k : A -> M B) (s s1 : CPU) (a : A) :
  m s = (s1, [], Ok a) -> bind m k s = k a s1.
Proof.
  intros H. unfold bind. rewrite H. destruct (k a s1) as [[s2 t2] r]. reflexivity.
Qed.

Lemma bind_traced {A B : Type} (m : M A) (k : A -> M B) (s s1 : CPU)
    (t1 : list Event) (a : A) :
  m s = (s1, t1, Ok a) ->
  bind m k s = match k a s1 with (s2, t2, r) => (s2, t1 ++ t2, r) end.
Proof. intros H. unfold bind. rewrite H. reflexivity. Qed.

Lemma bind_raised {A B : Type} (m : M A) (k : A -> M B) (s s1 : CPU)
    (t1 : list Event) (e : exn) :
  m s = (s1, t1, Raise e) -> bind m k s = (s1, t1, Raise e).
Proof. intros H. unfold bind. rewrite H. reflexivity. Qed.

Lemma reg_get_eq (r : nat) (s : CPU) :
  reg_get r s = (s, [], Ok (from_option Register_get 0 (registers s !! r))).
Proof. reflexivity. Qed.

Lemma reg_get_pc (s : CPU) : reg_get pc s = (s, [], Ok (pc_value s)).
Proof. reflexivity. Qed.

Lemma reg_put_eq (r : nat) (val : Z) (s : CPU) :
  reg_put r val s
  = ({| memory := memory s;
        registers := alter (fun o => Register_put o val) r (registers s);
        cc := cc s; halted := halted s |}, [], Ok tt).
Proof. reflexivity. Qed.

Lemma memory_get_eq (addr : Z) (s : CPU) :
  memory_get addr s = (s, [], mem_get (memory s) addr).
Proof. reflexivity. Qed.

Lemma memory_put_ok (addr val : Z) (s : CPU) (m : Memory) :
  mem_put (memory s) addr val = Ok m ->
  memory_put addr val s
  = ({| memory := m; registers := registers s; cc := cc s; halted := halted s |},
     [], Ok tt).
Proof. intros H. unfold memory_put, bind, get_self, lift. rewrite H. reflexivity. Qed.

Lemma registers_at_ok (i : Z) (s : CPU) :
  length (registers s) = 16%nat -> 0 <= i < 16 ->
  registers_at i s = (s, [], Ok (Z.to_nat i)).
Proof.
  intros Hlen Hi. unfold registers_at. rewrite (bind_silent _ _ s s s eq_refl).
  rewrite Hlen. change (Z.of_nat 16) with 16.
  replace ((0 <=? i) && (i <? 16)) with true; [reflexivity|].
  symmetry. apply andb_true_intro.
  split; [apply Z.leb_le|apply Z.ltb_lt]; lia.
Qed.

Lemma registers_ok_length (rs : list Register) :
  registers_ok rs = true -> length rs = 16%nat.
Proof.
  destruct rs as [|[|v] rest]; cbn; try discriminate.
  intros [H _]%andb_prop. apply Nat.eqb_eq in H. lia.
Qed.

(** *** One step, case by case *)

(** Fetch, decode and notification, common to every step. *)
Lemma step_fetch (s : CPU) (w : Z) (i : Instruction CondFlag OpCode) :
  mem_get (memory s) (pc_value s) = Ok w ->
  decode w = Ok i ->
  step s =
  let execute : M unit :=
    let predicate := cond i in
    self <- get_self ;;
    if negb (bool_decide (cond_and (cc self) predicate = NEVER)) then
      let opcode := op i in
      target <- registers_at (reg_target i) ;;
      src1 <- registers_at (reg_src1 i) ;;
      left <- reg_get src1 ;;
      src2 <- registers_at (reg_src2 i) ;;
      right0 <- reg_get src2 ;;
      let right := right0 + offset i in
      pc0 <- reg_get pc ;;
      reg_put pc (pc0 + 1) ;;;
      rc <- lift (alu_exec opcode left right) ;;
      let '(result, cc') := rc in
      set_cc cc' ;;;
      if bool_decide (opcode = LOAD) then
        memval <- memory_get result ;;
        reg_put target memval
      else if bool_decide (opcode = STORE) then
        val <- reg_get target ;;
        memory_put result val
      else if bool_decide (opcode = HALT) then
        set_halted true
      else
        reg_put target result
    else
      pc0 <- reg_get pc ;;
      reg_put pc (pc0 + 1) in
  match execute s with
  | (s', t, r) => (s', Notify (mkCPUStep s (pc_value s) w i) :: t, r)
  end.
Proof.
  intros Hf Hd. unfold step.
  rewrite (bind_silent _ _ s s _ (reg_get_pc s)).
  rewrite (bind_silent _ _ s s w) by (rewrite memory_get_eq, Hf; reflexivity).
  rewrite (bind_silent _ _ s s i) by (unfold lift; rewrite Hd; reflexivity).
  rewrite (bind_traced _ _ s s [Notify (mkCPUStep s (pc_value s) w i)] tt)
    by reflexivity.
  reflexivity.
Qed.

(** A step whose predicate fails. *)
Lemma step_skipped (s : CPU) (w : Z) (i : Instruction CondFlag OpCode) :
  mem_get (memory s) (pc_value s) = Ok w ->
  decode w = Ok i ->
  cond_and (cc s) (cond i) = NEVER ->
  step s = ({| memory := memory s; registers := pc_stepped s;
               cc := cc s; halted := halted s |},
            [Notify (mkCPUStep s (pc_value s) w i)], Ok tt).
Proof.
  intros Hf Hd Hc. rewrite (step_fetch s w i Hf Hd). cbv zeta.
  rewrite (bind_silent _ _ s s s eq_refl).
  rewrite (bool_decide_eq_true_2 _ Hc). reflexivity.
Qed.

(** A step whose predicate passes, up to the opcode-specific commit: the
    operands are read from the registers as the step found them, then the PC
    is stepped and the flags are replaced; the commit runs on that state. *)
Lemma step_passing (s : CPU) (w : Z) (i : Instruction CondFlag OpCode)
    (result : Z) (cc' : CondFlag) :
  length (registers s) = 16%nat ->
  mem_get (memory s) (pc_value s) = Ok w ->
  decode w = Ok i ->
  cond_and (cc s) (cond i) <> NEVER ->
  0 <= reg_target i < 16 -> 0 <= reg_src1 i < 16 -> 0 <= reg_src2 i < 16 ->
  alu_exec (op i) (reg_value s (reg_src1 i))
    (reg_value s (reg_src2 i) + offset i) = Ok (result, cc') ->
  step s =
  let target := Z.to_nat (reg_target i) in
  let commit : M unit :=
    if bool_decide (op i = LOAD) then
      memval <- memory_get result ;;
      reg_put target memval
    else if bool_decide (op i = STORE) then
      val <- reg_get target ;;
      memory_put result val
    else if bool_decide (op i = HALT) then
      set_halted true
    else
      reg_put target result in
  match commit (at_commit s cc') with
  | (s', t, r) => (s', Notify (mkCPUStep s (pc_value s) w i) :: t, r)
  end.
Proof.
  intros Hlen Hf Hd Hc Ht H1 H2 Halu.
  rewrite (step_fetch s w i Hf Hd). cbv zeta.
  rewrite (bind_silent _ _ s s s eq_refl).
  rewrite (bool_decide_eq_false_2 _ Hc). cbn [negb].
  rewrite (bind_silent _ _ s s _ (registers_at_ok _ s Hlen Ht)).
  rewrite (bind_silent _ _ s s _ (registers_at_ok _ s Hlen H1)).
  rewrite (bind_silent _ _ s s _ (reg_get_eq _ s)).
  rewrite (bind_silent _ _ s s _ (registers_at_ok _ s Hlen H2)).
  rewrite (bind_silent _ _ s s _ (reg_get_eq _ s)).
  rewrite (bind_silent _ _ s s _ (reg_get_pc s)).
  rewrite (bind_silent _ _ _ _ _ (reg_put_eq pc _ s)).
  fold (reg_value s (reg_src1 i)). fold (reg_value s (reg_src2 i)).
  erewrite bind_silent by (unfold lift; rewrite Halu; reflexivity).
  cbv iota beta.
  erewrite bind_silent by reflexivity.
  reflexivity.
Qed.


(** *** The register tuple *)

Lemma registers_ok_lookup (rs : list Register) (n : nat) :
  registers_ok rs = true -> (1 <= n < 16)%nat ->
  exists x : Z, rs !! n = Some (Reg x).
Proof.
  destruct rs as [|[|v] rest]; cbn; try discriminate.
  intros [Hlen Hall]%andb_prop [Hn1 Hn2]. apply Nat.eqb_eq in Hlen.
  destruct n as [|n]; [lia|]. cbn.
  destruct (lookup_lt_is_Some_2 rest n ltac:(lia)) as [r Hr].
  apply Is_true_true_2, forallb_True in Hall.
  rewrite Forall_lookup in Hall. specialize (Hall n r Hr).
  destruct r as [|x]; [contradiction|]. exists x. exact Hr.
Qed.

Lemma registers_ok_zero (rs : list Register) :
  registers_ok rs = true -> rs !! 0%nat = Some ZeroRegister.
Proof. destruct rs as [|[|v] rest]; cbn; try discriminate. reflexivity. Qed.

Lemma registers_ok_alter (rs : list Register) (n : nat) (val : Z) :
  registers_ok rs = true ->
  registers_ok (alter (fun o => Register_put o val) n rs) = true.
Proof.
  destruct rs as [|[|v] rest]; cbn; try discriminate.
  intros [Hlen Hall]%andb_prop. destruct n as [|n]; cbn.
  - rewrite Hlen, Hall. reflexivity.
  - rewrite length_alter, Hlen. cbn [andb].
    apply Is_true_true_2, forallb_True in Hall.
    apply Is_true_true_1, forallb_True.
    rewrite Forall_lookup in Hall |- *. intros j r Hj.
    destruct (decide (n = j)) as [->|Hne].
    + rewrite list_lookup_alter_eq in Hj.
      destruct (rest !! j) as [r0|] eqn:E; [|discriminate].
      injection Hj as <-. specialize (Hall j r0 E).
      destruct r0; [contradiction|exact I].
    + rewrite list_lookup_alter_ne in Hj by exact Hne. exact (Hall j r Hj).
Qed.

(** Writing a register that is not register 0 and reading it back. *)
Lemma put_then_get (rs : list Register) (n : nat) (val : Z) :
  registers_ok rs = true -> (1 <= n < 16)%nat ->
  from_option Register_get 0 (alter (fun o => Register_put o val) n rs !! n) = val.
Proof.
  intros Hok Hn. destruct (registers_ok_lookup rs n Hok Hn) as [x Hx].
  rewrite list_lookup_alter_eq, Hx. reflexivity.
Qed.

(** Register 0 reads zero whatever was put. *)
Lemma put_zero_register (rs : list Register) (val : Z) :
  registers_ok rs = true ->
  from_option Register_get 0 (alter (fun o => Register_put o val) 0%nat rs !! 0%nat) = 0.
Proof.
  intros Hok. rewrite list_lookup_alter_eq, (registers_ok_zero rs Hok). reflexivity.
Qed.

Lemma pc_stepped_ok (s : CPU) :
  registers_ok (registers s) = true -> registers_ok (pc_stepped s) = true.
Proof. apply registers_ok_alter. Qed.

Lemma pc_stepped_pc (s : CPU) :
  registers_ok (registers s) = true ->
  from_option Register_get 0 (pc_stepped s !! pc) = pc_value s + 1.
Proof. intros Hok. apply put_then_get; [exact Hok|unfold pc; lia]. Qed.

Lemma pc_stepped_other (s : CPU) (r : nat) :
  r <> pc -> pc_stepped s !! r = registers s !! r.
Proof. intros Hr. apply list_lookup_alter_ne. congruence. Qed.

Lemma init_registers_ok (m : Memory) :
  registers_ok (registers (__init__ m)) = true.
Proof. reflexivity. Qed.

(** *** Silence and shape of the computations *)

Lemma silent_bind {A B : Type} (m : M A) (k : A -> M B) :
  silent m -> (forall a, silent (k a)) -> silent (bind m k).
Proof.
  intros Hm Hk s. unfold bind. specialize (Hm s).
  destruct (m s) as [[s1 t1] [a|e]]; cbn in Hm; subst t1; [|reflexivity].
  specialize (Hk a s1). destruct (k a s1) as [[s2 t2] r]. exact Hk.
Qed.

Lemma keeps_shape_bind {A B : Type} (m : M A) (k : A -> M B) :
  keeps_shape m -> (forall a, keeps_shape (k a)) -> keeps_shape (bind m k).
Proof.
  intros Hm Hk s Hok. unfold bind. specialize (Hm s Hok).
  destruct (m s) as [[s1 t1] [a|e]]; cbn in Hm; [|exact Hm].
  specialize (Hk a s1 Hm). destruct (k a s1) as [[s2 t2] r]. exact Hk.
Qed.

Lemma silent_reg_put (r : nat) (val : Z) : silent (reg_put r val).
Proof. intros s. reflexivity. Qed.

Lemma silent_memory_put (addr val : Z) : silent (memory_put addr val).
Proof.
  intros s. unfold memory_put, bind, get_self, lift.
  destruct (mem_put (memory s) addr val); reflexivity.
Qed.

Lemma silent_registers_at (i : Z) : silent (registers_at i).
Proof.
  intros s. unfold registers_at, bind, get_self.
  destruct (_ && _); [reflexivity|]. destruct (_ && _); reflexivity.
Qed.

Lemma keeps_shape_reg_put (r : nat) (val : Z) : keeps_shape (reg_put r val).
Proof. intros s Hok. cbn. apply registers_ok_alter, Hok. Qed.

Lemma keeps_shape_memory_put (addr val : Z) : keeps_shape (memory_put addr val).
Proof.
  intros s Hok. unfold memory_put, bind, get_self, lift.
  destruct (mem_put (memory s) addr val); exact Hok.
Qed.

Lemma keeps_shape_registers_at (i : Z) : keeps_shape (registers_at i).
Proof.
  intros s Hok. unfold registers_at, bind, get_self.
  destruct (_ && _); [exact Hok|]. destruct (_ && _); exact Hok.
Qed.

Create HintDb cpu_silent discriminated.
Hint Resolve silent_reg_put silent_memory_put silent_registers_at : cpu_silent.
Create HintDb cpu_shape discriminated.
Hint Resolve keeps_shape_reg_put keeps_shape_memory_put keeps_shape_registers_at
  : cpu_shape.

Ltac through_binds lem db :=
  repeat first
    [ solve [auto with db]
    | solve [intros ?; reflexivity]
    | solve [intros ? ?; assumption]
    | apply lem; [|intros ?]
    | match goal with
      | |- context [if ?b then _ else _] => destruct b
      | |- context [let '(_, _) := ?p in _] => destruct p
      end ].

(** Execution, the part of [step] after the notification. *)
Lemma execute_silent (i : Instruction CondFlag OpCode) :
  silent
    (self <- get_self ;;
     if negb (bool_decide (cond_and (cc self) (cond i) = NEVER)) then
       target <- registers_at (reg_target i) ;;
       src1 <- registers_at (reg_src1 i) ;;
       left <- reg_get src1 ;;
       src2 <- registers_at (reg_src2 i) ;;
       right0 <- reg_get src2 ;;
       pc0 <- reg_get pc ;;
       reg_put pc (pc0 + 1) ;;;
       rc <- lift (alu_exec (op i) left (right0 + offset i)) ;;
       let '(result, cc') := rc in
       set_cc cc' ;;;
       if bool_decide (op i = LOAD) then
         memval <- memory_get result ;;
         reg_put target memval
       else if bool_decide (op i = STORE) then
         val <- reg_get target ;;
         memory_put result val
       else if bool_decide (op i = HALT) then
         set_halted true
       else
         reg_put target result
     else
       pc0 <- reg_get pc ;;
       reg_put pc (pc0 + 1)).
Proof. through_binds (@silent_bind) cpu_silent. Qed.

Lemma step_keeps_shape : keeps_shape step.
Proof. unfold step, notify_all. through_binds (@keeps_shape_bind) cpu_shape. Qed.


Lemma step_load (s : CPU) (w : Z) (i : Instruction CondFlag OpCode)
    (addr : Z) (cc' : CondFlag) (memval : Z) :
  length (registers s) = 16%nat ->
  mem_get (memory s) (pc_value s) = Ok w ->
  decode w = Ok i ->
  cond_and (cc s) (cond i) <> NEVER ->
  op i = LOAD ->
  0 <= reg_target i < 16 -> 0 <= reg_src1 i < 16 -> 0 <= reg_src2 i < 16 ->
  alu_exec (op i) (reg_value s (reg_src1 i))
    (reg_value s (reg_src2 i) + offset i) = Ok (addr, cc') ->
  mem_get (memory s) addr = Ok memval ->
  step s =
  ({| memory := memory s;
      registers := alter (fun o => Register_put o memval)
                     (Z.to_nat (reg_target i)) (pc_stepped s);
      cc := cc'; halted := halted s |},
   [Notify (mkCPUStep s (pc_value s) w i)], Ok tt).
Proof.
  intros Hlen Hf Hd Hc Hop Ht H1 H2 Halu Hget.
  rewrite (step_passing s w i addr cc') by assumption. cbv zeta.
  rewrite (bool_decide_eq_true_2 _ Hop).
  rewrite (bind_silent _ _ _ (at_commit s cc') memval)
    by (rewrite memory_get_eq; cbn [memory at_commit]; rewrite Hget; reflexivity).
  reflexivity.
Qed.

Lemma step_store (s : CPU) (w : Z) (i : Instruction CondFlag OpCode)
    (addr : Z) (cc' : CondFlag) (m1 : Memory) :
  length (registers s) = 16%nat ->
  mem_get (memory s) (pc_value s) = Ok w ->
  decode w = Ok i ->
  cond_and (cc s) (cond i) <> NEVER ->
  op i = STORE ->
  0 <= reg_target i < 16 -> 0 <= reg_src1 i < 16 -> 0 <= reg_src2 i < 16 ->
  alu_exec (op i) (reg_value s (reg_src1 i))
    (reg_value s (reg_src2 i) + offset i) = Ok (addr, cc') ->
  mem_put (memory s) addr (reg_value (at_commit s cc') (reg_target i)) = Ok m1 ->
  step s =
  ({| memory := m1; registers := pc_stepped s; cc := cc'; halted := halted s |},
   [Notify (mkCPUStep s (pc_value s) w i)], Ok tt).
Proof.
  intros Hlen Hf Hd Hc Hop Ht H1 H2 Halu Hput.
  rewrite (step_passing s w i addr cc') by assumption. cbv zeta.
  assert (Hne : op i <> LOAD) by (rewrite Hop; apply not_eq_sym, LOAD_STORE).
  rewrite (bool_decide_eq_false_2 _ Hne), (bool_decide_eq_true_2 _ Hop).
  rewrite (bind_silent _ _ _ _ _ (reg_get_eq _ _)).
  rewrite (memory_put_ok _ _ _ m1) by exact Hput.
  reflexivity.
Qed.

Lemma step_halted (s : CPU) (w : Z) (i : Instruction CondFlag OpCode)
    (result : Z) (cc' : CondFlag) :
  length (registers s) = 16%nat ->
  mem_get (memory s) (pc_value s) = Ok w ->
  decode w = Ok i ->
  cond_and (cc s) (cond i) <> NEVER ->
  op i = HALT ->
  0 <= reg_target i < 16 -> 0 <= reg_src1 i < 16 -> 0 <= reg_src2 i < 16 ->
  alu_exec (op i) (reg_value s (reg_src1 i))
    (reg_value s (reg_src2 i) + offset i) = Ok (result, cc') ->
  step s =
  ({| memory := memory s; registers := pc_stepped s; cc := cc'; halted := true |},
   [Notify (mkCPUStep s (pc_value s) w i)], Ok tt).
Proof.
  intros Hlen Hf Hd Hc Hop Ht H1 H2 Halu.
  rewrite (step_passing s w i result cc') by assumption. cbv zeta.
  assert (Hne1 : op i <> LOAD) by (rewrite Hop; apply not_eq_sym, LOAD_HALT).
  assert (Hne2 : op i <> STORE) by (rewrite Hop; apply not_eq_sym, STORE_HALT).
  rewrite (bool_decide_eq_false_2 _ Hne1), (bool_decide_eq_false_2 _ Hne2),
    (bool_decide_eq_true_2 _ Hop).
  reflexivity.
Qed.

Lemma step_other (s : CPU) (w : Z) (i : Instruction CondFlag OpCode)
    (result : Z) (cc' : CondFlag) :
  length (registers s) = 16%nat ->
  mem_get (memory s) (pc_value s) = Ok w ->
  decode w = Ok i ->
  cond_and (cc s) (cond i) <> NEVER ->
  op i <> LOAD -> op i <> STORE -> op i <> HALT ->
  0 <= reg_target i < 16 -> 0 <= reg_src1 i < 16 -> 0 <= reg_src2 i < 16 ->
  alu_exec (op i) (reg_value s (reg_src1 i))
    (reg_value s (reg_src2 i) + offset i) = Ok (result, cc') ->
  step s =
  ({| memory := memory s;
      registers := alter (fun o => Register_put o result)
                     (Z.to_nat (reg_target i)) (pc_stepped s);
      cc := cc'; halted := halted s |},
   [Notify (mkCPUStep s (pc_value s) w i)], Ok tt).
Proof.
  intros Hlen Hf Hd Hc Hl Hs Hh Ht H1 H2 Halu.
  rewrite (step_passing s w i result cc') by assumption. cbv zeta.
  rewrite (bool_decide_eq_false_2 _ Hl), (bool_decide_eq_false_2 _ Hs),
    (bool_decide_eq_false_2 _ Hh).
  reflexivity.
Qed.

(** The loop of [run] is left at once when [halted] is set. *)
Lemma run_loop_halted (fuel : nat) (single_step : bool) (step_count : Z) (s : CPU) :
  halted s = true ->
  run_loop fuel single_step step_count s = (s, [], Ok (Some tt)).
Proof.
  intros Hh. destruct fuel; cbn [run_loop];
    rewrite (bind_silent _ _ s s s eq_refl), Hh; reflexivity.
Qed.

(** One iteration of the loop of [run]. *)
Lemma run_loop_iteration (fuel : nat) (single_step : bool) (step_count : Z)
    (s s1 : CPU) (t : list Event) :
  halted s = false ->
  step s = (s1, t, Ok tt) ->
  run_loop (S fuel) single_step step_count s
  = match run_loop fuel single_step (step_count + 1) s1 with
    | (s2, t2, r) =>
        (s2, (if single_step then [Input step_count] else []) ++ t ++ t2, r)
    end.
Proof.
  intros Hh Hstep. cbn [run_loop].
  rewrite (bind_silent _ _ s s s eq_refl), Hh. cbn [negb].
  destruct single_step.
  - rewrite (bind_traced _ _ s s [Input step_count] tt) by reflexivity.
    rewrite (bind_traced _ _ s s1 t tt) by exact Hstep.
    destruct (run_loop fuel true (step_count + 1) s1) as [[s2 t2] r]. reflexivity.
  - rewrite (bind_silent _ _ s s tt) by reflexivity.
    rewrite (bind_traced _ _ s s1 t tt) by exact Hstep.
    destruct (run_loop fuel false (step_count + 1) s1) as [[s2 t2] r]. reflexivity.
Qed.


(** *** The claims on the CPU *)

(** C3.  In a step whose predicate passes, the operands are read from the
    registers as the step found them, then the PC (register 15) is
    incremented, and only then is the ALU result committed.  So for an
    instruction that is neither LOAD, STORE nor HALT the register tuple ends
    as the PC-stepped tuple with the result put into the target: with target
    index 15 the PC ends equal to the ALU result, not to the incremented
    value; with any other target it ends incremented by 1. *)
Theorem step_commit_overwrites_stepped_pc (s : CPU) (w : Z)
    (i : Instruction CondFlag OpCode) (result : Z) (cc' : CondFlag) :
  registers_ok (registers s) = true ->
  mem_get (memory s) (pc_value s) = Ok w ->
  decode w = Ok i ->
  cond_and (cc s) (cond i) <> NEVER ->
  op i <> LOAD -> op i <> STORE -> op i <> HALT ->
  0 <= reg_target i < 16 -> 0 <= reg_src1 i < 16 -> 0 <= reg_src2 i < 16 ->
  alu_exec (op i) (reg_value s (reg_src1 i))
    (reg_value s (reg_src2 i) + offset i) = Ok (result, cc') ->
  exists s' : CPU,
    step s = (s', [Notify (mkCPUStep s (pc_value s) w i)], Ok tt)
    /\ registers s' = alter (fun o => Register_put o result)
                        (Z.to_nat (reg_target i)) (pc_stepped s)
    /\ (reg_target i = 15 -> pc_value s' = result)
    /\ (reg_target i <> 15 -> pc_value s' = pc_value s + 1).
Proof.
  intros Hok Hf Hd Hc Hl Hs Hh Ht H1 H2 Halu.
  pose proof (registers_ok_length _ Hok) as Hlen.
  eexists. split; [apply (step_other s w i result cc'); assumption|].
  cbn [registers]. split; [reflexivity|]. split.
  - intros ->. unfold pc_value, reg_value. cbn [registers].
    apply put_then_get; [apply pc_stepped_ok, Hok|lia].
  - intros Hne. unfold pc_value at 1. unfold reg_value. cbn [registers].
    rewrite list_lookup_alter_ne by (change (Z.to_nat 15) with 15%nat; lia).
    apply pc_stepped_pc, Hok.
Qed.

(** C4.  When the instruction's condition ANDed with the current flags is
    NEVER, a step changes the program counter only, which goes up by exactly
    1: every other register, the flags, the halted flag and the memory are
    as before (nothing an ALU computes is committed, nothing is put into
    memory). *)
Theorem step_predicate_never (s : CPU) (w : Z)
    (i : Instruction CondFlag OpCode) :
  registers_ok (registers s) = true ->
  mem_get (memory s) (pc_value s) = Ok w ->
  decode w = Ok i ->
  cond_and (cc s) (cond i) = NEVER ->
  exists s' : CPU,
    step s = (s', [Notify (mkCPUStep s (pc_value s) w i)], Ok tt)
    /\ pc_value s' = pc_value s + 1
    /\ (forall r : nat, r <> pc -> registers s' !! r = registers s !! r)
    /\ cc s' = cc s
    /\ halted s' = halted s
    /\ memory s' = memory s.
Proof.
  intros Hok Hf Hd Hc.
  eexists. split; [apply (step_skipped s w i); assumption|].
  cbn [registers cc halted memory]. split; [|split]; [| |auto].
  - apply pc_stepped_pc, Hok.
  - intros r Hr. apply pc_stepped_other, Hr.
Qed.

(** C5, as the code has it.  A HALT whose predicate passes sets [halted] and
    its commit writes no register: the register tuple ends as the PC-stepped
    tuple, so every register but the PC is as before, the target register
    among them unless it is register 15, which has gone up by 1 like after
    any executed instruction.  The loop of [run] is left right after that
    step, whatever fuel remains. *)
Theorem step_halt (s : CPU) (w : Z) (i : Instruction CondFlag OpCode)
    (result : Z) (cc' : CondFlag) :
  registers_ok (registers s) = true ->
  mem_get (memory s) (pc_value s) = Ok w ->
  decode w = Ok i ->
  cond_and (cc s) (cond i) <> NEVER ->
  op i = HALT ->
  0 <= reg_target i < 16 -> 0 <= reg_src1 i < 16 -> 0 <= reg_src2 i < 16 ->
  alu_exec (op i) (reg_value s (reg_src1 i))
    (reg_value s (reg_src2 i) + offset i) = Ok (result, cc') ->
  exists s' : CPU,
    step s = (s', [Notify (mkCPUStep s (pc_value s) w i)], Ok tt)
    /\ halted s' = true
    /\ registers s' = pc_stepped s
    /\ (forall r : nat, r <> pc -> registers s' !! r = registers s !! r)
    /\ (reg_target i <> 15 ->
        reg_value s' (reg_target i) = reg_value s (reg_target i))
    /\ (reg_target i = 15 ->
        reg_value s' (reg_target i) = reg_value s (reg_target i) + 1)
    /\ (halted s = false ->
        forall (fuel : nat) (single_step : bool) (step_count : Z),
          run_loop (S fuel) single_step step_count s
          = (s', (if single_step then [Input step_count] else [])
                 ++ [Notify (mkCPUStep s (pc_value s) w i)],
             Ok (Some tt))).
Proof.
  intros Hok Hf Hd Hc Hop Ht H1 H2 Halu.
  pose proof (registers_ok_length _ Hok) as Hlen.
  pose proof (step_halted s w i result cc' Hlen Hf Hd Hc Hop Ht H1 H2 Halu) as Hstep.
  eexists. split; [exact Hstep|].
  cbn [registers halted]. split; [reflexivity|]. split; [reflexivity|].
  split; [intros r Hr; apply pc_stepped_other, Hr|]. split; [|split].
  - intros Hne. unfold reg_value. cbn [registers].
    rewrite pc_stepped_other by (unfold pc; lia). reflexivity.
  - intros ->. apply pc_stepped_pc, Hok.
  - intros Hrun fuel single_step step_count.
    rewrite (run_loop_iteration fuel single_step step_count s _ _ Hrun Hstep).
    rewrite run_loop_halted by reflexivity. reflexivity.
Qed.

(** C6, as the code has it.  A STORE whose predicate passes puts into memory,
    at the address the ALU returned, the value its target register holds at
    commit time (for target 15 that is the stepped PC), not the ALU result.
    On a memory whose [get] returns what was last [put] at an address, a
    LOAD from that address in the next step hands that same value to its
    target register: any register but register 0 then reads it back, and
    register 0 still reads zero. *)
Theorem store_then_load (s : CPU) (w : Z) (i : Instruction CondFlag OpCode)
    (addr : Z) (cc' : CondFlag) (m1 : Memory) :
  (forall (m m' : Memory) (a x : Z), mem_put m a x = Ok m' -> mem_get m' a = Ok x) ->
  registers_ok (registers s) = true ->
  mem_get (memory s) (pc_value s) = Ok w ->
  decode w = Ok i ->
  cond_and (cc s) (cond i) <> NEVER ->
  op i = STORE ->
  0 <= reg_target i < 16 -> 0 <= reg_src1 i < 16 -> 0 <= reg_src2 i < 16 ->
  alu_exec (op i) (reg_value s (reg_src1 i))
    (reg_value s (reg_src2 i) + offset i) = Ok (addr, cc') ->
  mem_put (memory s) addr (reg_value (at_commit s cc') (reg_target i)) = Ok m1 ->
  exists s1 : CPU,
    step s = (s1, [Notify (mkCPUStep s (pc_value s) w i)], Ok tt)
    /\ memory s1 = m1
    /\ mem_get (memory s1) addr = Ok (reg_value (at_commit s cc') (reg_target i))
    /\ (reg_target i <> 15 ->
        reg_value (at_commit s cc') (reg_target i) = reg_value s (reg_target i))
    /\ (reg_target i = 15 ->
        reg_value (at_commit s cc') (reg_target i) = pc_value s + 1)
    /\ forall (w2 : Z) (i2 : Instruction CondFlag OpCode) (cc2 : CondFlag),
         mem_get (memory s1) (pc_value s1) = Ok w2 ->
         decode w2 = Ok i2 ->
         cond_and (cc s1) (cond i2) <> NEVER ->
         op i2 = LOAD ->
         0 <= reg_target i2 < 16 -> 0 <= reg_src1 i2 < 16 -> 0 <= reg_src2 i2 < 16 ->
         alu_exec (op i2) (reg_value s1 (reg_src1 i2))
           (reg_value s1 (reg_src2 i2) + offset i2) = Ok (addr, cc2) ->
         exists s2 : CPU,
           step s1 = (s2, [Notify (mkCPUStep s1 (pc_value s1) w2 i2)], Ok tt)
           /\ registers s2
              = alter (fun o => Register_put
                                  o (reg_value (at_commit s cc') (reg_target i)))
                  (Z.to_nat (reg_target i2)) (pc_stepped s1)
           /\ (reg_target i2 <> 0 ->
               reg_value s2 (reg_target i2)
               = reg_value (at_commit s cc') (reg_target i))
           /\ (reg_target i2 = 0 -> reg_value s2 (reg_target i2) = 0).
Proof.
  intros Hmem Hok Hf Hd Hc Hop Ht H1 H2 Halu Hput.
  pose proof (registers_ok_length _ Hok) as Hlen.
  set (v := reg_value (at_commit s cc') (reg_target i)) in *.
  pose proof (step_store s w i addr cc' m1 Hlen Hf Hd Hc Hop Ht H1 H2 Halu Hput)
    as Hstep.
  eexists. split; [exact Hstep|]. cbn [memory].
  split; [reflexivity|]. split; [exact (Hmem _ _ _ _ Hput)|].
  split; [|split].
  - intros Hne. subst v. unfold reg_value, at_commit. cbn [registers].
    rewrite pc_stepped_other by (unfold pc; lia). reflexivity.
  - intros E. subst v. rewrite E. apply pc_stepped_pc, Hok.
  - set (s1 := {| memory := m1; registers := pc_stepped s;
                  cc := cc'; halted := halted s |}).
    intros w2 i2 cc2 Hf2 Hd2 Hc2 Hop2 Ht2 H12 H22 Halu2.
    assert (Hok1 : registers_ok (registers s1) = true) by apply pc_stepped_ok, Hok.
    pose proof (registers_ok_length _ Hok1) as Hlen1.
    assert (Hget : mem_get (memory s1) addr = Ok v) by exact (Hmem _ _ _ _ Hput).
    eexists. split.
    { apply (step_load s1 w2 i2 addr cc2 v); assumption. }
    cbn [registers]. split; [reflexivity|]. split.
    + intros Hne. unfold reg_value. cbn [registers].
      apply put_then_get; [apply pc_stepped_ok, Hok1|lia].
    + intros E. unfold reg_value. cbn [registers]. rewrite E.
      apply put_zero_register, pc_stepped_ok, Hok1.
Qed.

(** C7.  Every step whose fetch and decode return emits exactly one
    notification, carrying the PC address, the fetched word and the decoded
    instruction.  Its subject is the CPU exactly as the step found it, so no
    effect of execution precedes it; and it is emitted whatever the
    predicate says and whatever execution does afterwards, an exception
    included. *)
Theorem step_notifies_once_before_execution (s : CPU) (w : Z)
    (i : Instruction CondFlag OpCode) :
  mem_get (memory s) (pc_value s) = Ok w ->
  decode w = Ok i ->
  exists (s' : CPU) (r : result unit),
    step s = (s', [Notify (mkCPUStep s (pc_value s) w i)], r).
Proof.
  intros Hf Hd. rewrite (step_fetch s w i Hf Hd). cbv zeta.
  pose proof (execute_silent i s) as Hsilent.
  match goal with
  | |- exists s' r, match ?m with _ => _ end = _ =>
      change (m.1.2 = []) in Hsilent; destruct m as [[s' t] r]
  end.
  cbn in Hsilent. subst t. exists s', r. reflexivity.
Qed.

(** Before the notification nothing is shown: a step whose fetch or decode
    raises emits no event and changes nothing. *)
Lemma step_fetch_raises (s : CPU) (e : exn) :
  mem_get (memory s) (pc_value s) = Raise e ->
  step s = (s, [], Raise e).
Proof.
  intros Hf. unfold step.
  rewrite (bind_silent _ _ s s _ (reg_get_pc s)).
  rewrite (bind_raised _ _ s s [] e) by (rewrite memory_get_eq, Hf; reflexivity).
  reflexivity.
Qed.

End Facts.

(** *** The theorems at work on the small platform *)

Lemma demo_get_put (m m' : gmap Z Z) (a x : Z) :
  Demo.put m a x = Ok m' -> Demo.get m' a = Ok x.
Proof.
  unfold Demo.put, Demo.get. intros [= <-]. rewrite lookup_insert_eq. reflexivity.
Qed.

Lemma step_commit_overwrites_stepped_pc_witness :
  exists s' : CPU,
    step (Demo.cpu_on [5] 15)
    = (s', [Notify (mkCPUStep (Demo.cpu_on [5] 15) 0 5 Demo.jump_7)], Ok tt)
    /\ pc_value s' = 7.
Proof.
  destruct (step_commit_overwrites_stepped_pc
              (Demo.cpu_on [5] 15) 5 Demo.jump_7 7 4)
    as (s' & Hstep & _ & Hpc & _);
    try reflexivity; try discriminate; try (cbn; lia).
  exists s'. split; [exact Hstep|]. apply Hpc. reflexivity.
Defined.

Lemma step_predicate_never_witness :
  exists s' : CPU,
    step (Demo.cpu_on [6] 4)
    = (s', [Notify (mkCPUStep (Demo.cpu_on [6] 4) 0 6 Demo.add_if_m)], Ok tt)
    /\ pc_value s' = 0 + 1
    /\ (forall r : nat, r <> pc ->
          registers s' !! r = registers (Demo.cpu_on [6] 4) !! r)
    /\ cc s' = 4
    /\ halted s' = false
    /\ memory s' = Demo.program [6].
Proof.
  apply (step_predicate_never (Demo.cpu_on [6] 4) 6 Demo.add_if_m); reflexivity.
Defined.

(** C5 as it is written fails on a HALT whose target is register 15: the
    step sets [halted], and the target register, the PC, goes from 0 to 1. *)
Lemma halt_target_r15_changes :
  exists s' : CPU,
    step (Demo.cpu_on [1] 15)
    = (s', [Notify (mkCPUStep (Demo.cpu_on [1] 15) 0 1 Demo.halt_r15)], Ok tt)
    /\ op Demo.halt_r15 = HALT
    /\ cond_and (cc (Demo.cpu_on [1] 15)) (cond Demo.halt_r15) <> NEVER
    /\ halted s' = true
    /\ reg_value (Demo.cpu_on [1] 15) (reg_target Demo.halt_r15) = 0
    /\ reg_value s' (reg_target Demo.halt_r15) = 1.
Proof.
  eexists. split; [vm_compute; reflexivity|].
  repeat split. discriminate.
Qed.

Lemma step_halt_witness :
  exists s' : CPU,
    step (Demo.cpu_on [7] 15)
    = (s', [Notify (mkCPUStep (Demo.cpu_on [7] 15) 0 7 Demo.halt_r0)], Ok tt)
    /\ halted s' = true
    /\ registers s' = pc_stepped (Demo.cpu_on [7] 15)
    /\ forall fuel : nat,
         run_loop (S fuel) false 0 (Demo.cpu_on [7] 15)
         = (s', [Notify (mkCPUStep (Demo.cpu_on [7] 15) 0 7 Demo.halt_r0)],
            Ok (Some tt)).
Proof.
  destruct (step_halt (Demo.cpu_on [7] 15) 7 Demo.halt_r0 0 2)
    as (s' & Hstep & Hh & Hregs & _ & _ & _ & Hrun);
    try reflexivity; try discriminate; try (cbn; lia).
  exists s'. split; [exact Hstep|]. split; [exact Hh|]. split; [exact Hregs|].
  intros fuel. apply (Hrun eq_refl fuel false 0).
Defined.

(** C6 as it is written fails on a LOAD into register 0: the STORE of
    register 1 puts 7 at address 100, the LOAD from address 100 into
    register 0, a different register, leaves it reading 0. *)
Lemma load_into_r0_reads_zero :
  exists (s1 s2 : CPU),
    step (Demo.cpu_on [2; 3] 15)
    = (s1, [Notify (mkCPUStep (Demo.cpu_on [2; 3] 15) 0 2 Demo.store_r1)], Ok tt)
    /\ step s1 = (s2, [Notify (mkCPUStep s1 1 3 Demo.load_r0)], Ok tt)
    /\ op Demo.store_r1 = STORE /\ op Demo.load_r0 = LOAD
    /\ reg_target Demo.store_r1 <> reg_target Demo.load_r0
    /\ reg_value (Demo.cpu_on [2; 3] 15) (reg_target Demo.store_r1) = 7
    /\ mem_get (memory s1) 100 = Ok 7
    /\ reg_value s2 (reg_target Demo.load_r0) = 0.
Proof.
  eexists. eexists. split; [vm_compute; reflexivity|].
  split; [vm_compute; reflexivity|].
  repeat split. discriminate.
Qed.

Lemma store_then_load_witness :
  exists (s1 s2 : CPU),
    step (Demo.cpu_on [2; 4] 15)
    = (s1, [Notify (mkCPUStep (Demo.cpu_on [2; 4] 15) 0 2 Demo.store_r1)], Ok tt)
    /\ mem_get (memory s1) 100 = Ok 7
    /\ step s1 = (s2, [Notify (mkCPUStep s1 1 4 Demo.load_r2)], Ok tt)
    /\ reg_value s2 2 = 7.
Proof.
  destruct (store_then_load (Demo.cpu_on [2; 4] 15) 2 Demo.store_r1 100 4
              (<[100 := 7]> (Demo.program [2; 4])))
    as (s1 & Hstep & Hm & Hget & _ & _ & Hload);
    try reflexivity; try discriminate; try (cbn; lia).
  { exact demo_get_put. }
  assert (Hs1 : s1 = {| memory := <[100 := 7]> (Demo.program [2; 4]);
                        registers := pc_stepped (Demo.cpu_on [2; 4] 15);
                        cc := 4; halted := false |}).
  { vm_compute in Hstep. injection Hstep as <-. vm_compute. reflexivity. }
  subst s1.
  destruct (Hload 4 Demo.load_r2 4) as (s2 & Hstep2 & _ & Hval & _);
    try reflexivity; try discriminate; try (cbn; lia).
  eexists. exists s2. split; [exact Hstep|]. split; [exact Hget|].
  split; [exact Hstep2|]. apply Hval. discriminate.
Defined.

Lemma step_notifies_once_before_execution_witness :
  exists (s' : CPU) (r : result unit),
    step (Demo.cpu_on [6] 4)
    = (s', [Notify (mkCPUStep (Demo.cpu_on [6] 4) 0 6 Demo.add_if_m)], r).
Proof.
  apply (step_notifies_once_before_execution (Demo.cpu_on [6] 4) 6 Demo.add_if_m);
    reflexivity.
Defined.

End CPUFacts.

(** * More on the bit-field codec *)

Module BitFieldMore.

Import BitField BitFieldFacts.

Lemma bits_above_lt (x n : Z) :
  0 <= x -> 0 <= n ->
  (forall i, n <= i -> Z.testbit x i = false) ->
  x < 2 ^ n.
Proof.
  intros Hx Hn Hbits.
  destruct (Z.eq_dec x 0) as [->|Hnz]; [apply Z.pow_pos_nonneg; lia|].
  apply Z.log2_lt_pow2; [lia|].
  destruct (Z.lt_ge_cases (Z.log2 x) n) as [?|Hge]; [assumption|exfalso].
  pose proof (Z.bit_log2 x ltac:(lia)) as Hb.
  rewrite (Hbits _ Hge) in Hb. discriminate.
Qed.

Lemma mod_pow2_bit (v n i : Z) :
  0 <= n -> 0 <= i ->
  Z.testbit (v mod 2 ^ n) i = Z.testbit v i && (i <? n).
Proof.
  intros Hn Hi. destruct (Z.ltb_spec i n).
  - rewrite Z.mod_pow2_bits_low by lia. symmetry. apply andb_true_r.
  - rewrite Z.mod_pow2_bits_high by lia. symmetry. apply andb_false_r.
Qed.

(** X1.  [_construct_mask] fails its assertion on a negative width, raises
    [ValueError] (from [int("", 2)]) on width 0 although the assertion lets
    it through, and returns [2 ^ width - 1] on every width from 1 on. *)
Theorem construct_mask_outcome (width : Z) :
  (width < 0 -> _construct_mask width = Raise AssertionError)
  /\ (width = 0 -> _construct_mask width = Raise ValueError)
  /\ (1 <= width -> _construct_mask width = Ok (2 ^ width - 1)).
Proof.
  split; [|split].
  - intros H. unfold _construct_mask, py_assert.
    replace (width >=? 0) with false; [reflexivity|].
    symmetry. rewrite Z.geb_leb. apply Z.leb_gt. lia.
  - intros ->. reflexivity.
  - intros H. rewrite _construct_mask_ones by exact H.
    rewrite Z.ones_equiv. reflexivity.
Qed.

Lemma construct_mask_outcome_witness :
  _construct_mask (-1) = Raise AssertionError
  /\ _construct_mask 0 = Raise ValueError
  /\ _construct_mask 4 = Ok (2 ^ 4 - 1).
Proof.
  split; [|split].
  - apply (proj1 (construct_mask_outcome (-1))). lia.
  - apply (proj1 (proj2 (construct_mask_outcome 0))). reflexivity.
  - apply (proj2 (proj2 (construct_mask_outcome 4))). lia.
Defined.

(** X2.  What [__init__] builds when its assertions hold, that is on
    [0 <= from_bit < 32] and [from_bit <= to_bit <= 32]: the width is
    [1 + to_bit - from_bit], the mask is [2 ^ (to_bit + 1) - 2 ^ from_bit]
    with ones exactly at the positions [from_bit .. to_bit], [maskout] is
    its complement [- mask - 1], [comp] is [2 ^ width] and [sign_bit] is
    [2 ^ (width - 1)].  On any other bounds it raises [AssertionError]:
    the [ValueError] of [_construct_mask] cannot occur. *)
Theorem init_outcome (from_bit to_bit : Z) :
  (0 <= from_bit < 32 /\ from_bit <= to_bit <= 32 ->
   exists bf : BitField,
     __init__ from_bit to_bit = Ok bf
     /\ BitField.from_bit bf = from_bit
     /\ BitField.to_bit bf = to_bit
     /\ field_width bf = 1 + to_bit - from_bit
     /\ mask bf = 2 ^ (to_bit + 1) - 2 ^ from_bit
     /\ (forall i, 0 <= i ->
           Z.testbit (mask bf) i = (from_bit <=? i) && (i <=? to_bit))
     /\ maskout bf = - mask bf - 1
     /\ comp bf = 2 ^ field_width bf
     /\ sign_bit bf = 2 ^ (field_width bf - 1))
  /\ (~ (0 <= from_bit < 32 /\ from_bit <= to_bit <= 32) ->
      __init__ from_bit to_bit = Raise AssertionError).
Proof.
  split; [|apply init_rejects].
  intros [Hf Ht]. exists (built from_bit to_bit).
  split; [apply init_accepts; assumption|].
  cbn [BitField.from_bit BitField.to_bit field_width mask maskout comp sign_bit built].
  repeat split.
  - rewrite Z.shiftl_mul_pow2, Z.ones_equiv by lia.
    replace (to_bit + 1) with (1 + to_bit - from_bit + from_bit) by lia.
    rewrite Z.pow_add_r by lia. lia.
  - intros i Hi. apply (built_mask_bit from_bit to_bit i); lia.
  - apply Z.shiftl_1_l.
  - apply Z.shiftl_1_l.
Qed.

Lemma init_outcome_witness :
  (exists bf : BitField,
     __init__ 4 7 = Ok bf
     /\ BitField.from_bit bf = 4
     /\ BitField.to_bit bf = 7
     /\ field_width bf = 1 + 7 - 4
     /\ mask bf = 2 ^ (7 + 1) - 2 ^ 4
     /\ (forall i, 0 <= i -> Z.testbit (mask bf) i = (4 <=? i) && (i <=? 7))
     /\ maskout bf = - mask bf - 1
     /\ comp bf = 2 ^ field_width bf
     /\ sign_bit bf = 2 ^ (field_width bf - 1))
  /\ __init__ 32 32 = Raise AssertionError.
Proof.
  split.
  - apply (proj1 (init_outcome 4 7)). lia.
  - apply (proj2 (init_outcome 32 32)). lia.
Defined.

(** X3.  [extract] returns a value in [0, 2 ^ field_width) on every integer
    word, a negative one included. *)
Theorem extract_in_range (from_bit to_bit : Z) (bf : BitField) (word : Z) :
  __init__ from_bit to_bit = Ok bf ->
  0 <= extract bf word < 2 ^ field_width bf.
Proof.
  intros [[Hf Ht] ->]%init_inv. cbn [field_width built].
  apply extract_range. lia.
Qed.

Lemma extract_in_range_witness :
  0 <= extract (built 4 7) (-1) < 2 ^ field_width (built 4 7).
Proof. apply (extract_in_range 4 7 (built 4 7) (-1)). reflexivity. Defined.

(** X4.  [insert] truncates silently: what [extract] reads back after
    [insert field_value word] is [field_value] modulo [2 ^ field_width],
    for every integer [field_value], too large or negative alike. *)
Theorem extract_insert_truncates (from_bit to_bit : Z) (bf : BitField)
    (field_value word : Z) :
  __init__ from_bit to_bit = Ok bf ->
  extract bf (insert bf field_value word) = field_value mod 2 ^ field_width bf.
Proof.
  intros [[Hf Ht] ->]%init_inv. cbn [field_width built].
  apply Z.bits_inj'. intros i Hi.
  rewrite extract_bit, insert_bit, mod_pow2_bit by lia.
  replace (from_bit <=? i + from_bit) with true by (symmetry; apply Z.leb_le; lia).
  cbn [andb]. replace (i + from_bit - from_bit) with i by lia.
  destruct (Z.leb_spec (i + from_bit) to_bit), (Z.leb_spec i (to_bit - from_bit)),
    (Z.ltb_spec i (1 + to_bit - from_bit)); try lia; try reflexivity.
Qed.

Lemma extract_insert_truncates_witness :
  extract (built 4 7) (insert (built 4 7) 300 0) = 300 mod 2 ^ field_width (built 4 7).
Proof. apply (extract_insert_truncates 4 7 (built 4 7) 300 0). reflexivity. Defined.

(** X5.  A second [insert] into the same field overwrites the first:
    [insert v (insert v' w) = insert v w]; with [v' = v], [insert] is
    idempotent. *)
Theorem insert_overwrites (from_bit to_bit : Z) (bf : BitField) (v v' word : Z) :
  __init__ from_bit to_bit = Ok bf ->
  insert bf v (insert bf v' word) = insert bf v word
  /\ insert bf v (insert bf v word) = insert bf v word.
Proof.
  intros [[Hf Ht] ->]%init_inv.
  assert (H : forall a b, insert (built from_bit to_bit) a
                            (insert (built from_bit to_bit) b word)
                          = insert (built from_bit to_bit) a word).
  { intros a b. apply Z.bits_inj'. intros i Hi.
    rewrite !insert_bit by lia.
    destruct ((from_bit <=? i) && (i <=? to_bit)); reflexivity. }
  split; apply H.
Qed.

Lemma insert_overwrites_witness :
  insert (built 4 7) 5 (insert (built 4 7) 9 255) = insert (built 4 7) 5 255
  /\ insert (built 4 7) 5 (insert (built 4 7) 5 255) = insert (built 4 7) 5 255.
Proof. apply (insert_overwrites 4 7 (built 4 7) 5 9 255). reflexivity. Defined.

(** X6.  Putting back what was extracted changes nothing:
    [insert (extract w) w = w] for every integer word. *)
Theorem insert_extract_same (from_bit to_bit : Z) (bf : BitField) (word : Z) :
  __init__ from_bit to_bit = Ok bf ->
  insert bf (extract bf word) word = word.
Proof.
  intros [[Hf Ht] ->]%init_inv.
  apply Z.bits_inj'. intros i Hi. rewrite insert_bit by lia.
  destruct (Z.leb_spec from_bit i), (Z.leb_spec i to_bit); cbn [andb];
    try reflexivity.
  rewrite extract_bit by lia.
  replace (i - from_bit + from_bit) with i by lia.
  replace (i - from_bit <=? to_bit - from_bit) with true
    by (symmetry; apply Z.leb_le; lia).
  apply andb_true_r.
Qed.

Lemma insert_extract_same_witness :
  insert (built 4 7) (extract (built 4 7) 2852170480) 2852170480 = 2852170480.
Proof. apply (insert_extract_same 4 7 (built 4 7) 2852170480). reflexivity. Defined.

(** X7.  Fields that do not overlap do not disturb each other: an [insert]
    into one leaves what [extract] reads from the other. *)
Theorem extract_other_field (f1 t1 f2 t2 : Z) (bf1 bf2 : BitField) (v word : Z) :
  __init__ f1 t1 = Ok bf1 -> __init__ f2 t2 = Ok bf2 ->
  t1 < f2 \/ t2 < f1 ->
  extract bf1 (insert bf2 v word) = extract bf1 word.
Proof.
  intros [[Hf1 Ht1] ->]%init_inv [[Hf2 Ht2] ->]%init_inv Hdis.
  apply Z.bits_inj'. intros i Hi.
  rewrite !extract_bit, insert_bit by lia.
  destruct (Z.leb_spec i (t1 - f1)); [|rewrite !andb_false_r; reflexivity].
  destruct (Z.leb_spec f2 (i + f1)), (Z.leb_spec (i + f1) t2); cbn [andb];
    try reflexivity; lia.
Qed.

Lemma extract_other_field_witness :
  extract (built 0 3) (insert (built 4 7) 15 5) = extract (built 0 3) 5.
Proof.
  apply (extract_other_field 0 3 4 7 (built 0 3) (built 4 7) 15 5);
    [reflexivity | reflexivity | lia].
Defined.

(** X8.  Inserts into fields that do not overlap commute, so the fields of
    a word can be packed in any order. *)
Theorem insert_commutes (f1 t1 f2 t2 : Z) (bf1 bf2 : BitField) (v1 v2 word : Z) :
  __init__ f1 t1 = Ok bf1 -> __init__ f2 t2 = Ok bf2 ->
  t1 < f2 \/ t2 < f1 ->
  insert bf1 v1 (insert bf2 v2 word) = insert bf2 v2 (insert bf1 v1 word).
Proof.
  intros [[Hf1 Ht1] ->]%init_inv [[Hf2 Ht2] ->]%init_inv Hdis.
  apply Z.bits_inj'. intros i Hi. rewrite !insert_bit by lia.
  destruct (Z.leb_spec f1 i), (Z.leb_spec i t1), (Z.leb_spec f2 i),
    (Z.leb_spec i t2); cbn [andb]; try reflexivity; lia.
Qed.

Lemma insert_commutes_witness :
  insert (built 0 3) 9 (insert (built 4 7) 15 0)
  = insert (built 4 7) 15 (insert (built 0 3) 9 0).
Proof.
  apply (insert_commutes 0 3 4 7 (built 0 3) (built 4 7) 9 15 0);
    [reflexivity | reflexivity | lia].
Defined.

(** X9.  [insert] keeps a 32-bit word a 32-bit word when the field ends at
    bit 31 or below, whatever the field value; the bound on [to_bit] is
    needed, [__init__] also accepting [to_bit = 32]. *)
Theorem insert_stays_32_bit (from_bit to_bit : Z) (bf : BitField) (v word : Z) :
  __init__ from_bit to_bit = Ok bf ->
  to_bit <= 31 ->
  0 <= word < 2 ^ 32 ->
  0 <= insert bf v word < 2 ^ 32.
Proof.
  intros [[Hf Ht] ->]%init_inv Ht31 Hw.
  assert (Hnn : 0 <= insert (built from_bit to_bit) v word).
  { apply Z.bits_iff_nonneg_ex. exists 32. intros i Hi.
    rewrite insert_bit by lia.
    replace (i <=? to_bit) with false by (symmetry; apply Z.leb_gt; lia).
    rewrite andb_false_r.
    apply Z.bits_above_log2; [lia|].
    destruct (Z.eq_dec word 0) as [->|]; [cbn; lia|].
    apply Z.lt_trans with 32; [|lia]. apply Z.log2_lt_pow2; lia. }
  split; [exact Hnn|].
  apply bits_above_lt; [exact Hnn|lia|]. intros i Hi.
  rewrite insert_bit by lia.
  replace (i <=? to_bit) with false by (symmetry; apply Z.leb_gt; lia).
  rewrite andb_false_r.
  destruct (Z.eq_dec word 0) as [->|]; [apply Z.bits_0|].
  apply Z.bits_above_log2; [lia|].
  apply Z.lt_le_trans with 32; [|lia]. apply Z.log2_lt_pow2; lia.
Qed.

Lemma insert_stays_32_bit_witness :
  0 <= insert (built 28 31) 255 4294967295 < 2 ^ 32.
Proof.
  apply (insert_stays_32_bit 28 31 (built 28 31) 255 4294967295);
    [reflexivity | lia | lia].
Defined.

Lemma pow2_split (n : Z) : 1 <= n -> 2 ^ n = 2 * 2 ^ (n - 1) /\ 0 < 2 ^ (n - 1).
Proof.
  intros Hn. split; [|apply Z.pow_pos_nonneg; lia].
  replace n with (n - 1 + 1) at 1 by lia.
  rewrite Z.pow_add_r, Z.pow_1_r by lia. lia.
Qed.

Lemma extract_signed_value (f t w : Z) :
  0 <= f <= t ->
  extract_signed (built f t) w
  = if 2 ^ (t - f) <=? extract (built f t) w
    then extract (built f t) w - 2 ^ (1 + t - f)
    else extract (built f t) w.
Proof.
  intros Hf. rewrite extract_signed_built by exact Hf.
  pose proof (extract_range f t w Hf) as Hr.
  rewrite (testbit_top _ (t - f)); [reflexivity|lia|].
  replace (t - f + 1) with (1 + t - f) by lia. exact Hr.
Qed.

(** X10.  [extract_signed] returns a value in
    [- 2 ^ (field_width - 1), 2 ^ (field_width - 1)) on every integer word;
    on a one-bit field that is [-1] or [0]. *)
Theorem extract_signed_in_range (from_bit to_bit : Z) (bf : BitField) (word : Z) :
  __init__ from_bit to_bit = Ok bf ->
  - 2 ^ (field_width bf - 1) <= extract_signed bf word < 2 ^ (field_width bf - 1).
Proof.
  intros [[Hf Ht] ->]%init_inv. cbn [field_width built].
  rewrite extract_signed_value by lia.
  pose proof (extract_range from_bit to_bit word ltac:(lia)) as Hr.
  destruct (pow2_split (1 + to_bit - from_bit) ltac:(lia)) as [Hp Hpos].
  replace (1 + to_bit - from_bit - 1) with (to_bit - from_bit) in * by lia.
  destruct (Z.leb_spec (2 ^ (to_bit - from_bit))
              (extract (built from_bit to_bit) word)); lia.
Qed.

Lemma extract_signed_in_range_witness :
  - 2 ^ (field_width (built 4 7) - 1)
  <= extract_signed (built 4 7) 240
  < 2 ^ (field_width (built 4 7) - 1).
Proof. apply (extract_signed_in_range 4 7 (built 4 7) 240). reflexivity. Defined.

(** X11.  Signed round trip: a value [v] with
    [- 2 ^ (field_width - 1) <= v < 2 ^ (field_width - 1)], negative or not,
    that is put into a word with [insert] is read back by
    [extract_signed]. *)
Theorem extract_signed_insert_roundtrip (from_bit to_bit : Z) (bf : BitField)
    (v word : Z) :
  __init__ from_bit to_bit = Ok bf ->
  - 2 ^ (field_width bf - 1) <= v < 2 ^ (field_width bf - 1) ->
  extract_signed bf (insert bf v word) = v.
Proof.
  intros Hinit Hv.
  pose proof (extract_insert_truncates from_bit to_bit bf v word Hinit) as Hx.
  apply init_inv in Hinit as [[Hf Ht] ->]. cbn [field_width built] in *.
  rewrite extract_signed_value by lia. rewrite Hx.
  destruct (pow2_split (1 + to_bit - from_bit) ltac:(lia)) as [Hp Hpos].
  replace (1 + to_bit - from_bit - 1) with (to_bit - from_bit) in * by lia.
  destruct (Z.lt_ge_cases v 0) as [Hneg|Hnn].
  - replace (v mod 2 ^ (1 + to_bit - from_bit)) with (v + 2 ^ (1 + to_bit - from_bit))
      by (apply Z.mod_unique with (q := -1); lia).
    destruct (Z.leb_spec (2 ^ (to_bit - from_bit))
                (v + 2 ^ (1 + to_bit - from_bit))); lia.
  - rewrite Z.mod_small by lia.
    destruct (Z.leb_spec (2 ^ (to_bit - from_bit)) v); lia.
Qed.

Lemma extract_signed_insert_roundtrip_witness :
  extract_signed (built 0 9) (insert (built 0 9) (-3) 4294967295) = -3.
Proof.
  apply (extract_signed_insert_roundtrip 0 9 (built 0 9) (-3) 4294967295);
    [reflexivity | cbn; lia].
Defined.

(** X12.  [sign_extend] returns exactly when [width > 1] and
    [0 <= field < 2 ^ (width + 1)]; on every other pair of arguments, a
    negative field among them, it raises [AssertionError]. *)
Theorem sign_extend_outcome (field width : Z) :
  ((exists r : Z, sign_extend field width = Ok r)
   <-> 1 < width /\ 0 <= field < 2 ^ (width + 1))
  /\ (~ (1 < width /\ 0 <= field < 2 ^ (width + 1)) ->
      sign_extend field width = Raise AssertionError).
Proof.
  assert (Hrej : ~ (1 < width /\ 0 <= field < 2 ^ (width + 1)) ->
                 sign_extend field width = Raise AssertionError).
  { intros H. unfold sign_extend, py_assert.
    destruct (Z.gtb_spec width 1) as [Hw|Hw]; [|reflexivity]. cbn [rbind].
    rewrite Z.shiftl_1_l.
    destruct (Z.leb_spec 0 field), (Z.ltb_spec field (2 ^ (width + 1)));
      cbn [andb rbind]; try reflexivity.
    exfalso. apply H. lia. }
  split; [split|exact Hrej].
  - intros [r Hr].
    destruct (decide (1 < width /\ 0 <= field < 2 ^ (width + 1))) as [H|H];
      [exact H|]. rewrite (Hrej H) in Hr. discriminate.
  - intros [Hw Hf]. rewrite sign_extend_eval by assumption. eexists. reflexivity.
Qed.

Lemma sign_extend_outcome_witness :
  (exists r : Z, sign_extend 5 3 = Ok r)
  /\ sign_extend (-1) 3 = Raise AssertionError
  /\ sign_extend 16 3 = Raise AssertionError.
Proof.
  split; [|split].
  - apply (proj1 (sign_extend_outcome 5 3)). cbn. lia.
  - apply (proj2 (sign_extend_outcome (-1) 3)). lia.
  - apply (proj2 (sign_extend_outcome 16 3)). cbn. lia.
Defined.

(** X13.  Two's complement round trip: for [width > 1] and
    [- 2 ^ (width - 1) <= v < 2 ^ (width - 1)], [sign_extend] gives [v] back
    from its [width]-bit encoding [v mod 2 ^ width]. *)
Theorem sign_extend_decodes (v width : Z) :
  1 < width ->
  - 2 ^ (width - 1) <= v < 2 ^ (width - 1) ->
  sign_extend (v mod 2 ^ width) width = Ok v.
Proof.
  intros Hw Hv. destruct (pow2_split width ltac:(lia)) as [Hp Hpos].
  assert (Hm : 0 <= v mod 2 ^ width < 2 ^ width) by (apply Z.mod_pos_bound; lia).
  rewrite sign_extend_in_width by assumption.
  rewrite (testbit_top _ (width - 1))
    by (try lia; replace (width - 1 + 1) with width by lia; exact Hm).
  destruct (Z.lt_ge_cases v 0) as [Hneg|Hnn].
  - replace (v mod 2 ^ width) with (v + 2 ^ width)
      by (apply Z.mod_unique with (q := -1); lia).
    destruct (Z.leb_spec (2 ^ (width - 1)) (v + 2 ^ width)); [f_equal; lia|lia].
  - rewrite Z.mod_small by lia.
    destruct (Z.leb_spec (2 ^ (width - 1)) v); [lia|reflexivity].
Qed.

Lemma sign_extend_decodes_witness : sign_extend ((-3) mod 2 ^ 4) 4 = Ok (-3).
Proof. apply (sign_extend_decodes (-3) 4); [lia | cbn; lia]. Defined.

(** X14.  On a field that fits [width] bits, [sign_extend] returns the one
    integer in [- 2 ^ (width - 1), 2 ^ (width - 1)) that is congruent to
    the field modulo [2 ^ width]. *)
Theorem sign_extend_representative (field width : Z) :
  1 < width -> 0 <= field < 2 ^ width ->
  exists r : Z,
    sign_extend field width = Ok r
    /\ - 2 ^ (width - 1) <= r < 2 ^ (width - 1)
    /\ r mod 2 ^ width = field.
Proof.
  intros Hw Hf. destruct (pow2_split width ltac:(lia)) as [Hp Hpos].
  rewrite sign_extend_in_width by assumption.
  rewrite (testbit_top _ (width - 1))
    by (try lia; replace (width - 1 + 1) with width by lia; exact Hf).
  eexists. split; [reflexivity|].
  destruct (Z.leb_spec (2 ^ (width - 1)) field).
  - split; [lia|]. symmetry. apply Z.mod_unique with (q := -1); lia.
  - split; [lia|]. apply Z.mod_small. lia.
Qed.

Lemma sign_extend_representative_witness :
  exists r : Z,
    sign_extend 13 4 = Ok r /\ - 2 ^ (4 - 1) <= r < 2 ^ (4 - 1) /\ r mod 2 ^ 4 = 13.
Proof. apply (sign_extend_representative 13 4); [lia | cbn; lia]. Defined.

(** X15.  The extra bit [sign_extend] lets in is dropped when the sign bit
    is set: a field in [2 ^ width, 2 ^ (width + 1)) with bit [width - 1] set
    comes back as [field - 2 ^ (width + 1)], the same negative value as for
    [field - 2 ^ width]. *)
Theorem sign_extend_over_wide_negative (field width : Z) :
  1 < width ->
  2 ^ width <= field < 2 ^ (width + 1) ->
  Z.testbit field (width - 1) = true ->
  sign_extend field width = Ok (field - 2 ^ (width + 1))
  /\ sign_extend field width = sign_extend (field - 2 ^ width) width
  /\ - 2 ^ (width - 1) <= field - 2 ^ (width + 1) < 0.
Proof.
  intros Hw Hf Hb. destruct (pow2_split width ltac:(lia)) as [Hp Hpos].
  destruct (pow2_split (width + 1) ltac:(lia)) as [Hp1 _].
  replace (width + 1 - 1) with width in Hp1 by lia.
  assert (Hb' : Z.testbit (field - 2 ^ width) (width - 1) = true).
  { rewrite <- Hb. replace (field - 2 ^ width) with (field + (-1) * 2 ^ width) by lia.
    rewrite <- (Z.mod_pow2_bits_low (field + -1 * 2 ^ width) width) by lia.
    rewrite Z.mod_add by lia. apply Z.mod_pow2_bits_low. lia. }
  assert (Hlow : 2 ^ (width - 1) <= field - 2 ^ width).
  { rewrite (testbit_top _ (width - 1)) in Hb'
      by (try lia; replace (width - 1 + 1) with width by lia; lia).
    apply Z.leb_le. exact Hb'. }
  assert (Hval : sign_extend field width = Ok (field - 2 ^ (width + 1))).
  { rewrite sign_extend_eval by lia. rewrite Hb. f_equal.
    replace (field mod 2 ^ (width - 1)) with (field - 3 * 2 ^ (width - 1)); [lia|].
    apply Z.mod_unique with (q := 3); lia. }
  split; [exact Hval|]. split; [|lia].
  rewrite Hval. rewrite sign_extend_in_width by lia. rewrite Hb'. f_equal. lia.
Qed.

Lemma sign_extend_over_wide_negative_witness :
  sign_extend 15 3 = Ok (15 - 2 ^ (3 + 1))
  /\ sign_extend 15 3 = sign_extend (15 - 2 ^ 3) 3
  /\ - 2 ^ (3 - 1) <= 15 - 2 ^ (3 + 1) < 0.
Proof.
  apply (sign_extend_over_wide_negative 15 3); [lia | cbn; lia | reflexivity].
Defined.

End BitFieldMore.

(** * More on the CPU *)

Module CPUMore.

Import CPU CPUFacts.

Section More.

Context `{P : Platform}.
Local Open Scope cpu_scope.

(** *** Frames: what a computation leaves alone *)

Lemma relates_bind {A B : Type} (R : CPU -> CPU -> Prop) (m : M A) (k : A -> M B) :
  (forall s1 s2 s3, R s1 s2 -> R s2 s3 -> R s1 s3) ->
  relates R m -> (forall a, relates R (k a)) -> relates R (bind m k).
Proof.
  intros Htrans Hm Hk s. unfold bind. specialize (Hm s).
  destruct (m s) as [[s1 t1] [a|e]]; cbn in Hm; [|exact Hm].
  specialize (Hk a s1). destruct (k a s1) as [[s2 t2] r]. cbn in *.
  exact (Htrans _ _ _ Hm Hk).
Qed.

Lemma relates_read {A : Type} (R : CPU -> CPU -> Prop) (m : M A) :
  (forall s, R s s) -> (forall s, (m s).1.1 = s) -> relates R m.
Proof. intros Hrefl Hm s. rewrite Hm. apply Hrefl. Qed.

Lemma registers_at_state (i : Z) (s : CPU) : (registers_at i s).1.1 = s.
Proof.
  unfold registers_at, bind, get_self.
  destruct (_ && _); [reflexivity|]. destruct (_ && _); reflexivity.
Qed.

Lemma memory_get_state (addr : Z) (s : CPU) : (memory_get addr s).1.1 = s.
Proof. reflexivity. Qed.

Lemma lift_state {A : Type} (r : result A) (s : CPU) : (lift r s).1.1 = s.
Proof. reflexivity. Qed.

Lemma same_memory_trans (s1 s2 s3 : CPU) :
  same_memory s1 s2 -> same_memory s2 s3 -> same_memory s1 s3.
Proof. unfold same_memory. congruence. Qed.

Lemma same_halted_trans (s1 s2 s3 : CPU) :
  same_halted s1 s2 -> same_halted s2 s3 -> same_halted s1 s3.
Proof. unfold same_halted. congruence. Qed.

Lemma halted_stays_trans (s1 s2 s3 : CPU) :
  halted_stays s1 s2 -> halted_stays s2 s3 -> halted_stays s1 s3.
Proof. unfold halted_stays. auto. Qed.

Lemma same_halted_memory_put (addr val : Z) :
  relates same_halted (memory_put addr val).
Proof.
  intros s. unfold memory_put, bind, get_self, lift, same_halted.
  destruct (mem_put (memory s) addr val); reflexivity.
Qed.

Lemma halted_stays_memory_put (addr val : Z) :
  relates halted_stays (memory_put addr val).
Proof.
  intros s. unfold memory_put, bind, get_self, lift, halted_stays.
  destruct (mem_put (memory s) addr val); intros H; exact H.
Qed.

Ltac frame_reads refl :=
  apply relates_read;
  [ exact refl
  | first [ apply registers_at_state | apply memory_get_state
          | apply lift_state | intros ?; reflexivity ] ].

Ltac frames trans refl :=
  repeat first
    [ solve [frame_reads refl]
    | solve [apply same_halted_memory_put]
    | solve [apply halted_stays_memory_put]
    | solve [intros ?; reflexivity]
    | solve [intros ? ?; reflexivity]
    | solve [intros ? ?; assumption]
    | rewrite bool_decide_eq_false_2 by assumption
    | apply relates_bind; [exact trans| |intros ?]
    | match goal with
      | |- context [if ?b then _ else _] => destruct b
      | |- context [let '(_, _) := ?p in _] => destruct p
      end ].

(** Execution, the part of [step] after the notification, for an
    instruction that is not a STORE. *)
Lemma execute_same_memory (i : Instruction CondFlag OpCode) :
  op i <> STORE ->
  relates same_memory
    (self <- get_self ;;
     if negb (bool_decide (cond_and (cc self) (cond i) = NEVER)) then
       target <- registers_at (reg_target i) ;;
       src1 <- registers_at (reg_src1 i) ;;
       left <- reg_get src1 ;;
       src2 <- registers_at (reg_src2 i) ;;
       right0 <- reg_get src2 ;;
       pc0 <- reg_get pc ;;
       reg_put pc (pc0 + 1) ;;;
       rc <- lift (alu_exec (op i) left (right0 + offset i)) ;;
       let '(result, cc') := rc in
       set_cc cc' ;;;
       if bool_decide (op i = LOAD) then
         memval <- memory_get result ;;
         reg_put target memval
       else if bool_decide (op i = STORE) then
         val <- reg_get target ;;
         memory_put result val
       else if bool_decide (op i = HALT) then
         set_halted true
       else
         reg_put target result
     else
       pc0 <- reg_get pc ;;
       reg_put pc (pc0 + 1)).
Proof.
  intros Hop.
  frames same_memory_trans (fun s : CPU => eq_refl (memory s)).
Qed.

Lemma execute_same_halted (i : Instruction CondFlag OpCode) :
  op i <> HALT ->
  relates same_halted
    (self <- get_self ;;
     if negb (bool_decide (cond_and (cc self) (cond i) = NEVER)) then
       target <- registers_at (reg_target i) ;;
       src1 <- registers_at (reg_src1 i) ;;
       left <- reg_get src1 ;;
       src2 <- registers_at (reg_src2 i) ;;
       right0 <- reg_get src2 ;;
       pc0 <- reg_get pc ;;
       reg_put pc (pc0 + 1) ;;;
       rc <- lift (alu_exec (op i) left (right0 + offset i)) ;;
       let '(result, cc') := rc in
       set_cc cc' ;;;
       if bool_decide (op i = LOAD) then
         memval <- memory_get result ;;
         reg_put target memval
       else if bool_decide (op i = STORE) then
         val <- reg_get target ;;
         memory_put result val
       else if bool_decide (op i = HALT) then
         set_halted true
       else
         reg_put target result
     else
       pc0 <- reg_get pc ;;
       reg_put pc (pc0 + 1)).
Proof.
  intros Hop.
  frames same_halted_trans (fun s : CPU => eq_refl (halted s)).
Qed.

Lemma step_halted_stays : relates halted_stays step.
Proof.
  unfold step, notify_all.
  frames halted_stays_trans (fun (s : CPU) (H : halted s = true) => H).
Qed.


(** *** Errors before and during execution *)

Lemma step_decode_raises (s : CPU) (w : Z) (e : exn) :
  mem_get (memory s) (pc_value s) = Ok w ->
  decode w = Raise e ->
  step s = (s, [], Raise e).
Proof.
  intros Hf Hd. unfold step.
  rewrite (bind_silent _ _ s s _ (reg_get_pc s)).
  rewrite (bind_silent _ _ s s w) by (rewrite memory_get_eq, Hf; reflexivity).
  rewrite (bind_raised _ _ s s [] e) by (unfold lift; rewrite Hd; reflexivity).
  reflexivity.
Qed.

(** X16.  When the fetch ([memory.get] at the PC) or the decoder raises,
    the step ends with that exception, the CPU is exactly as before (the
    PC has not moved) and no listener has been notified. *)
Theorem step_fetch_or_decode_raises (s : CPU) (e : exn) :
  mem_get (memory s) (pc_value s) = Raise e
  \/ (exists w : Z, mem_get (memory s) (pc_value s) = Ok w /\ decode w = Raise e) ->
  step s = (s, [], Raise e).
Proof.
  intros [Hf|(w & Hf & Hd)].
  - apply step_fetch_raises, Hf.
  - apply (step_decode_raises s w e Hf Hd).
Qed.

Lemma registers_at_bad (i : Z) (s : CPU) :
  ~ (- Z.of_nat (length (registers s)) <= i < Z.of_nat (length (registers s))) ->
  registers_at i s = (s, [], Raise IndexError).
Proof.
  intros H. unfold registers_at. rewrite (bind_silent _ _ s s s eq_refl). cbv zeta.
  destruct (Z.leb_spec 0 i), (Z.ltb_spec i (Z.of_nat (length (registers s))));
    cbn [andb]; try (exfalso; lia);
    destruct (Z.leb_spec (- Z.of_nat (length (registers s))) i),
      (Z.ltb_spec i 0); cbn [andb]; try reflexivity; exfalso; lia.
Qed.

Lemma registers_at_good (i : Z) (s : CPU) :
  - Z.of_nat (length (registers s)) <= i < Z.of_nat (length (registers s)) ->
  exists k : nat, registers_at i s = (s, [], Ok k).
Proof.
  intros H. unfold registers_at. rewrite (bind_silent _ _ s s s eq_refl). cbv zeta.
  destruct (Z.leb_spec 0 i), (Z.ltb_spec i (Z.of_nat (length (registers s))));
    cbn [andb]; try (eexists; reflexivity); try (exfalso; lia).
  all: destruct (Z.leb_spec (- Z.of_nat (length (registers s))) i),
    (Z.ltb_spec i 0); cbn [andb]; try (eexists; reflexivity); exfalso; lia.
Qed.

(** X17.  A register index outside [-16, 16) (outside [-len, len) of the
    register tuple) in any of the three register fields raises [IndexError]
    when the predicate passes, after the notification and before the PC is
    stepped: the CPU is exactly as before. *)
Theorem step_bad_register_index (s : CPU) (w : Z)
    (i : Instruction CondFlag OpCode) :
  mem_get (memory s) (pc_value s) = Ok w ->
  decode w = Ok i ->
  cond_and (cc s) (cond i) <> NEVER ->
  (let n := Z.of_nat (length (registers s)) in
   ~ (- n <= reg_target i < n) \/ ~ (- n <= reg_src1 i < n)
   \/ ~ (- n <= reg_src2 i < n)) ->
  step s = (s, [Notify (mkCPUStep s (pc_value s) w i)], Raise IndexError).
Proof.
  intros Hf Hd Hc Hbad. cbv zeta in Hbad.
  rewrite (step_fetch s w i Hf Hd). cbv zeta.
  rewrite (bind_silent _ _ s s s eq_refl).
  rewrite (bool_decide_eq_false_2 _ Hc). cbn [negb].
  set (n := Z.of_nat (length (registers s))) in *.
  destruct (decide (- n <= reg_target i < n)) as [Ht|Ht];
    [|rewrite (bind_raised _ _ s s [] IndexError (registers_at_bad _ s Ht));
      reflexivity].
  destruct (registers_at_good _ s Ht) as [kt Hkt].
  rewrite (bind_silent _ _ s s kt Hkt).
  destruct (decide (- n <= reg_src1 i < n)) as [H1|H1];
    [|rewrite (bind_raised _ _ s s [] IndexError (registers_at_bad _ s H1));
      reflexivity].
  destruct (registers_at_good _ s H1) as [k1 Hk1].
  rewrite (bind_silent _ _ s s k1 Hk1).
  rewrite (bind_silent _ _ s s _ (reg_get_eq _ s)).
  destruct (decide (- n <= reg_src2 i < n)) as [H2|H2];
    [exfalso; tauto|].
  rewrite (bind_raised _ _ s s [] IndexError (registers_at_bad _ s H2)).
  reflexivity.
Qed.

(** X18.  When the ALU raises, the step ends with that exception after the
    PC has been stepped: the PC is one higher, every other register, the
    flags, the halted flag and the memory are as before. *)
Theorem step_alu_raises (s : CPU) (w : Z) (i : Instruction CondFlag OpCode)
    (e : exn) :
  registers_ok (registers s) = true ->
  mem_get (memory s) (pc_value s) = Ok w ->
  decode w = Ok i ->
  cond_and (cc s) (cond i) <> NEVER ->
  0 <= reg_target i < 16 -> 0 <= reg_src1 i < 16 -> 0 <= reg_src2 i < 16 ->
  alu_exec (op i) (reg_value s (reg_src1 i))
    (reg_value s (reg_src2 i) + offset i) = Raise e ->
  step s = ({| memory := memory s; registers := pc_stepped s;
               cc := cc s; halted := halted s |},
            [Notify (mkCPUStep s (pc_value s) w i)], Raise e)
  /\ from_option Register_get 0 (pc_stepped s !! pc) = pc_value s + 1
  /\ (forall r : nat, r <> pc -> pc_stepped s !! r = registers s !! r).
Proof.
  intros Hok Hf Hd Hc Ht H1 H2 Halu.
  pose proof (registers_ok_length _ Hok) as Hlen.
  split; [|split; [apply pc_stepped_pc, Hok|intros r Hr; apply pc_stepped_other, Hr]].
  rewrite (step_fetch s w i Hf Hd). cbv zeta.
  rewrite (bind_silent _ _ s s s eq_refl).
  rewrite (bool_decide_eq_false_2 _ Hc). cbn [negb].
  rewrite (bind_silent _ _ s s _ (registers_at_ok _ s Hlen Ht)).
  rewrite (bind_silent _ _ s s _ (registers_at_ok _ s Hlen H1)).
  rewrite (bind_silent _ _ s s _ (reg_get_eq _ s)).
  rewrite (bind_silent _ _ s s _ (registers_at_ok _ s Hlen H2)).
  rewrite (bind_silent _ _ s s _ (reg_get_eq _ s)).
  rewrite (bind_silent _ _ s s _ (reg_get_pc s)).
  rewrite (bind_silent _ _ _ _ _ (reg_put_eq pc _ s)).
  fold (reg_value s (reg_src1 i)). fold (reg_value s (reg_src2 i)).
  erewrite bind_raised by (unfold lift; rewrite Halu; reflexivity).
  reflexivity.
Qed.

(** X19.  In every step whose predicate passes and whose ALU call returns,
    the flags become those the ALU returned, whatever the opcode and also
    when the commit raises; and the commit changes no register but the
    target: every other register is as the PC increment left it. *)
Theorem step_flags_replaced (s : CPU) (w : Z) (i : Instruction CondFlag OpCode)
    (result : Z) (cc' : CondFlag) :
  registers_ok (registers s) = true ->
  mem_get (memory s) (pc_value s) = Ok w ->
  decode w = Ok i ->
  cond_and (cc s) (cond i) <> NEVER ->
  0 <= reg_target i < 16 -> 0 <= reg_src1 i < 16 -> 0 <= reg_src2 i < 16 ->
  alu_exec (op i) (reg_value s (reg_src1 i))
    (reg_value s (reg_src2 i) + offset i) = Ok (result, cc') ->
  cc (step s).1.1 = cc'
  /\ (forall r : nat, r <> Z.to_nat (reg_target i) ->
        registers (step s).1.1 !! r = pc_stepped s !! r).
Proof.
  intros Hok Hf Hd Hc Ht H1 H2 Halu.
  pose proof (registers_ok_length _ Hok) as Hlen.
  rewrite (step_passing s w i result cc') by assumption. cbv zeta.
  destruct (bool_decide (op i = LOAD)).
  - destruct (mem_get (memory s) result) as [memval|e] eqn:E.
    + rewrite (bind_silent _ _ _ (at_commit s cc') memval)
        by (rewrite memory_get_eq; cbn [memory at_commit]; rewrite E; reflexivity).
      cbn. split; [reflexivity|]. intros r Hr.
      apply list_lookup_alter_ne. congruence.
    + rewrite (bind_raised _ _ _ (at_commit s cc') [] e)
        by (rewrite memory_get_eq; cbn [memory at_commit]; rewrite E; reflexivity).
      cbn. split; [reflexivity|]. intros r Hr. reflexivity.
  - destruct (bool_decide (op i = STORE)).
    + rewrite (bind_silent _ _ _ _ _ (reg_get_eq _ _)).
      destruct (mem_put (memory (at_commit s cc')) result
                  (from_option Register_get 0
                     (registers (at_commit s cc') !! Z.to_nat (reg_target i))))
        as [m|e] eqn:E.
      * rewrite (memory_put_ok _ _ _ m E). cbn.
        split; [reflexivity|intros r Hr; reflexivity].
      * unfold memory_put. rewrite (bind_silent _ _ _ _ _ eq_refl).
        rewrite (bind_raised _ _ _ (at_commit s cc') [] e)
          by (unfold lift; rewrite E; reflexivity).
        cbn. split; [reflexivity|intros r Hr; reflexivity].
    + destruct (bool_decide (op i = HALT)); cbn.
      * split; [reflexivity|intros r Hr; reflexivity].
      * split; [reflexivity|]. intros r Hr. apply list_lookup_alter_ne. congruence.
Qed.

(** X20.  A step changes the memory only by executing a STORE: if the
    memory after a step differs from the memory before, the step fetched
    and decoded a STORE instruction whose predicate passed. *)
Theorem step_writes_memory_only_on_store (s : CPU) :
  memory (step s).1.1 <> memory s ->
  exists (w : Z) (i : Instruction CondFlag OpCode),
    mem_get (memory s) (pc_value s) = Ok w
    /\ decode w = Ok i
    /\ op i = STORE
    /\ cond_and (cc s) (cond i) <> NEVER.
Proof.
  intros Hdiff.
  destruct (mem_get (memory s) (pc_value s)) as [w|e] eqn:Hf;
    [|rewrite (step_fetch_raises s e Hf) in Hdiff; contradiction].
  destruct (decode w) as [i|e] eqn:Hd;
    [|rewrite (step_decode_raises s w e Hf Hd) in Hdiff; contradiction].
  exists w, i. split; [reflexivity|]. split; [exact Hd|].
  destruct (decide (op i = STORE)) as [Hop|Hop].
  - split; [exact Hop|]. intros Hc.
    rewrite (step_skipped s w i Hf Hd Hc) in Hdiff. contradiction.
  - exfalso. apply Hdiff. rewrite (step_fetch s w i Hf Hd). cbv zeta.
    pose proof (execute_same_memory i Hop s) as Hsame. unfold same_memory in Hsame.
    match goal with
    | |- memory (match ?m with _ => _ end).1.1 = _ =>
        change (memory m.1.1 = memory s) in Hsame; destruct m as [[s' t] r]
    end.
    exact Hsame.
Qed.

Lemma step_halted_changes (s : CPU) :
  (halted s = true -> halted (step s).1.1 = true)
  /\ (halted (step s).1.1 <> halted s ->
      halted s = false /\ halted (step s).1.1 = true
      /\ exists (w : Z) (i : Instruction CondFlag OpCode),
           mem_get (memory s) (pc_value s) = Ok w
           /\ decode w = Ok i
           /\ op i = HALT
           /\ cond_and (cc s) (cond i) <> NEVER
           /\ (step s).1.2 = [Notify (mkCPUStep s (pc_value s) w i)]).
Proof.
  split; [exact (step_halted_stays s)|].
  intros Hdiff.
  assert (Hfalse : halted s = false).
  { destruct (halted s) eqn:E; [|reflexivity].
    exfalso. apply Hdiff. apply (step_halted_stays s E). }
  split; [exact Hfalse|].
  split; [rewrite Hfalse in Hdiff; destruct (halted (step s).1.1); congruence|].
  destruct (mem_get (memory s) (pc_value s)) as [w|e] eqn:Hf;
    [|rewrite (step_fetch_raises s e Hf) in Hdiff; contradiction].
  destruct (decode w) as [i|e] eqn:Hd;
    [|rewrite (step_decode_raises s w e Hf Hd) in Hdiff; contradiction].
  exists w, i. split; [reflexivity|]. split; [exact Hd|].
  assert (Htrace : (step s).1.2 = [Notify (mkCPUStep s (pc_value s) w i)]).
  { rewrite (step_fetch s w i Hf Hd). cbv zeta.
    pose proof (execute_silent i s) as Hsilent.
    match goal with
    | |- (match ?m with _ => _ end).1.2 = _ =>
        change (m.1.2 = []) in Hsilent; destruct m as [[s' t] r]
    end.
    cbn in Hsilent |- *. rewrite Hsilent. reflexivity. }
  destruct (decide (op i = HALT)) as [Hop|Hop].
  - split; [exact Hop|]. split; [|exact Htrace]. intros Hc.
    rewrite (step_skipped s w i Hf Hd Hc) in Hdiff. contradiction.
  - exfalso. apply Hdiff. rewrite (step_fetch s w i Hf Hd). cbv zeta.
    pose proof (execute_same_halted i Hop s) as Hsame. unfold same_halted in Hsame.
    match goal with
    | |- halted (match ?m with _ => _ end).1.1 = _ =>
        change (halted m.1.1 = halted s) in Hsame; destruct m as [[s' t] r]
    end.
    exact Hsame.
Qed.


(** X21.  A step changes the halted flag only by executing a HALT, and only
    from false to true: if the flag after a step differs from the flag
    before, it was false, it is true, and the step fetched and decoded a
    HALT instruction whose predicate passed.  No step clears the flag. *)
Theorem step_sets_halted_only_on_halt (s : CPU) :
  (halted s = true -> halted (step s).1.1 = true)
  /\ (halted (step s).1.1 <> halted s ->
      halted s = false /\ halted (step s).1.1 = true
      /\ exists (w : Z) (i : Instruction CondFlag OpCode),
           mem_get (memory s) (pc_value s) = Ok w
           /\ decode w = Ok i
           /\ op i = HALT
           /\ cond_and (cc s) (cond i) <> NEVER
           /\ (step s).1.2 = [Notify (mkCPUStep s (pc_value s) w i)]).
Proof. exact (step_halted_changes s). Qed.

(** X22.  A LOAD whose predicate passes puts into its target register the
    word the memory holds at the address the ALU returned, after the PC
    increment, and leaves the memory and the halted flag alone: a target
    other than register 0 then reads that word, and a LOAD into register
    15 continues at the loaded address.  When that [memory.get] raises, the
    step ends with the exception, the PC stepped and the flags replaced,
    the target untouched. *)
Theorem step_load_commit (s : CPU) (w : Z) (i : Instruction CondFlag OpCode)
    (addr : Z) (cc' : CondFlag) :
  registers_ok (registers s) = true ->
  mem_get (memory s) (pc_value s) = Ok w ->
  decode w = Ok i ->
  cond_and (cc s) (cond i) <> NEVER ->
  op i = LOAD ->
  0 <= reg_target i < 16 -> 0 <= reg_src1 i < 16 -> 0 <= reg_src2 i < 16 ->
  alu_exec (op i) (reg_value s (reg_src1 i))
    (reg_value s (reg_src2 i) + offset i) = Ok (addr, cc') ->
  (forall memval : Z,
      mem_get (memory s) addr = Ok memval ->
      exists s' : CPU,
        step s = (s', [Notify (mkCPUStep s (pc_value s) w i)], Ok tt)
        /\ memory s' = memory s /\ cc s' = cc' /\ halted s' = halted s
        /\ registers s' = alter (fun o => Register_put o memval)
                            (Z.to_nat (reg_target i)) (pc_stepped s)
        /\ (reg_target i <> 0 -> reg_value s' (reg_target i) = memval)
        /\ (reg_target i = 15 -> pc_value s' = memval)
        /\ (reg_target i <> 15 -> pc_value s' = pc_value s + 1))
  /\ (forall e : exn,
        mem_get (memory s) addr = Raise e ->
        step s = (at_commit s cc', [Notify (mkCPUStep s (pc_value s) w i)],
                  Raise e)).
Proof.
  intros Hok Hf Hd Hc Hop Ht H1 H2 Halu.
  pose proof (registers_ok_length _ Hok) as Hlen. split.
  - intros memval Hget. eexists.
    split; [apply (step_load s w i addr cc' memval); assumption|].
    cbn [memory cc halted registers]. repeat split.
    + intros Hne. unfold reg_value. cbn [registers].
      apply put_then_get; [apply pc_stepped_ok, Hok|lia].
    + intros E. unfold pc_value, reg_value. cbn [registers]. rewrite E.
      apply put_then_get; [apply pc_stepped_ok, Hok|lia].
    + intros Hne. unfold pc_value at 1. unfold reg_value. cbn [registers].
      rewrite list_lookup_alter_ne by (change (Z.to_nat 15) with 15%nat; lia).
      apply pc_stepped_pc, Hok.
  - intros e Hget.
    rewrite (step_passing s w i addr cc') by assumption. cbv zeta.
    rewrite (bool_decide_eq_true_2 _ Hop).
    rewrite (bind_raised _ _ _ (at_commit s cc') [] e)
      by (rewrite memory_get_eq; cbn [memory at_commit]; rewrite Hget; reflexivity).
    reflexivity.
Qed.

(** *** The loop of [run] *)

Lemma run_loop_keeps_shape (fuel : nat) (single_step : bool) (step_count : Z) :
  keeps_shape (run_loop fuel single_step step_count).
Proof.
  revert step_count. induction fuel as [|fuel IH]; intros step_count;
    cbn [run_loop]; (apply keeps_shape_bind; [intros ? ?; assumption|intros self]).
  - destruct (negb (halted self)); intros ? ?; assumption.
  - destruct (negb (halted self)); [|intros ? ?; assumption].
    apply keeps_shape_bind; [destruct single_step; intros ? ?; assumption|intros _].
    apply keeps_shape_bind; [apply step_keeps_shape|intros _]. apply IH.
Qed.

(** X23.  The shape [__init__] gives the register tuple, sixteen registers
    of which the first is the zero register, is kept by every step and by
    every run, also one that raises or is cut short: register 0 reads zero
    afterwards. *)
Theorem registers_shape_kept (s : CPU) :
  registers_ok (registers s) = true ->
  (forall m : Memory, registers_ok (registers (__init__ m)) = true)
  /\ (registers_ok (registers (step s).1.1) = true
      /\ reg_value (step s).1.1 0 = 0)
  /\ (forall (fuel : nat) (from_addr : Z) (single_step : bool),
        registers_ok (registers (run fuel from_addr single_step s).1.1) = true
        /\ length (registers (run fuel from_addr single_step s).1.1) = 16%nat
        /\ reg_value (run fuel from_addr single_step s).1.1 0 = 0).
Proof.
  intros Hok.
  assert (Hzero : forall s' : CPU,
             registers_ok (registers s') = true -> reg_value s' 0 = 0).
  { intros s' H. unfold reg_value. change (Z.to_nat 0) with 0%nat.
    rewrite (registers_ok_zero _ H). reflexivity. }
  split; [intros m; reflexivity|].
  split; [split; [|apply Hzero]; apply step_keeps_shape, Hok|].
  intros fuel from_addr single_step.
  assert (Hrun : registers_ok
                   (registers (run fuel from_addr single_step s).1.1) = true).
  { apply (keeps_shape_bind (set_halted false)); [intros ? ?; assumption| |exact Hok].
    intros _. apply keeps_shape_bind; [apply keeps_shape_reg_put|].
    intros _. apply run_loop_keeps_shape. }
  split; [exact Hrun|]. split; [apply registers_ok_length, Hrun|apply Hzero, Hrun].
Qed.

Lemma run_loop_out_of_fuel (single_step : bool) (step_count : Z) (s : CPU) :
  halted s = false ->
  run_loop 0 single_step step_count s = (s, [], Ok None).
Proof.
  intros Hh. cbn [run_loop].
  rewrite (bind_silent _ _ s s s eq_refl), Hh. reflexivity.
Qed.

Lemma run_loop_raise (fuel : nat) (single_step : bool) (step_count : Z)
    (s s1 : CPU) (t : list Event) (e : exn) :
  halted s = false ->
  step s = (s1, t, Raise e) ->
  run_loop (S fuel) single_step step_count s
  = (s1, (if single_step then [Input step_count] else []) ++ t, Raise e).
Proof.
  intros Hh Hstep. cbn [run_loop].
  rewrite (bind_silent _ _ s s s eq_refl), Hh. cbn [negb].
  destruct single_step.
  - rewrite (bind_traced _ _ s s [Input step_count] tt) by reflexivity.
    rewrite (bind_raised _ _ s s1 t e) by exact Hstep. reflexivity.
  - rewrite (bind_silent _ _ s s tt) by reflexivity.
    rewrite (bind_raised _ _ s s1 t e) by exact Hstep. reflexivity.
Qed.

Lemma run_loop_returns (fuel : nat) (single_step : bool) :
  forall (step_count : Z) (s s' : CPU) (t : list Event),
    halted s = false ->
    run_loop fuel single_step step_count s = (s', t, Ok (Some tt)) ->
    halted s' = true
    /\ exists (t0 : list Event) (e : CPUStep),
         t = t0 ++ [Notify e]
         /\ op (instr e) = HALT
         /\ cond_and (cc (subject e)) (cond (instr e)) <> NEVER.
Proof.
  induction fuel as [|fuel IH]; intros step_count s s' t Hh Hrun.
  - rewrite (run_loop_out_of_fuel _ _ s Hh) in Hrun. discriminate.
  - destruct (step s) as [[s1 t1] [[]|e]] eqn:Hstep.
    + rewrite (run_loop_iteration fuel single_step step_count s s1 t1 Hh Hstep)
        in Hrun.
      destruct (halted s1) eqn:Hh1.
      * rewrite (run_loop_halted fuel single_step _ s1 Hh1) in Hrun.
        injection Hrun as <- <-.
        split; [exact Hh1|].
        destruct (step_halted_changes s) as [_ Hch].
        rewrite Hstep in Hch. cbn in Hch.
        destruct Hch as (_ & _ & w & i & _ & _ & Hop & Hc & Htr);
          [rewrite Hh1, Hh; discriminate|].
        subst t1. eexists. eexists.
        split; [rewrite app_nil_r; reflexivity|]. split; [exact Hop|exact Hc].
      * destruct (run_loop fuel single_step (step_count + 1) s1)
          as [[s2 t2] r2] eqn:Hrest.
        injection Hrun as <- <- ->.
        destruct (IH _ _ _ _ Hh1 Hrest) as (Hs2 & t0 & ev & -> & Hop & Hc).
        split; [exact Hs2|].
        exists ((if single_step then [Input step_count] else []) ++ t1 ++ t0), ev.
        split; [rewrite <- !app_assoc; reflexivity|]. split; [exact Hop|exact Hc].
    + rewrite (run_loop_raise fuel single_step step_count s s1 t1 e Hh Hstep)
        in Hrun. discriminate.
Qed.

(** X24.  [run] returns only on a HALT: whenever a run returns, the halted
    flag is set and the last thing the run showed is the notification of a
    HALT instruction whose predicate passed in the state it was fetched
    in. *)
Theorem run_returns_only_on_halt (fuel : nat) (from_addr : Z)
    (single_step : bool) (s s' : CPU) (t : list Event) :
  run fuel from_addr single_step s = (s', t, Ok (Some tt)) ->
  halted s' = true
  /\ exists (t0 : list Event) (e : CPUStep),
       t = t0 ++ [Notify e]
       /\ op (instr e) = HALT
       /\ cond_and (cc (subject e)) (cond (instr e)) <> NEVER.
Proof.
  unfold run.
  rewrite (bind_silent _ _ s _ tt eq_refl).
  rewrite (bind_silent _ _ _ _ tt (reg_put_eq pc from_addr _)).
  apply run_loop_returns. reflexivity.
Qed.

(** X25.  An exception raised by a step ends the loop of [run] there: the
    loop raises the same exception, in the state and with the events of
    that step, and no further step is executed however much fuel is left. *)
Theorem run_loop_propagates (fuel : nat) (single_step : bool) (step_count : Z)
    (s s1 : CPU) (t : list Event) (e : exn) :
  halted s = false ->
  step s = (s1, t, Raise e) ->
  run_loop (S fuel) single_step step_count s
  = (s1, (if single_step then [Input step_count] else []) ++ t, Raise e).
Proof. apply run_loop_raise. Qed.

(** X26.  [run] starts afresh: it clears the halted flag and sets the PC to
    [from_addr] whatever they were.  With a HALT whose predicate passes at
    [from_addr], a run from any CPU, a halted one included, executes exactly
    that instruction and returns with the halted flag set, the flags of the
    ALU and the PC at [from_addr + 1]. *)
Theorem run_restarts (s : CPU) (from_addr w : Z)
    (i : Instruction CondFlag OpCode) (result : Z) (cc' : CondFlag)
    (fuel : nat) (single_step : bool) :
  let s0 := {| memory := memory s;
               registers := alter (fun o => Register_put o from_addr) pc
                              (registers s);
               cc := cc s;
               halted := false |} in
  registers_ok (registers s) = true ->
  mem_get (memory s) from_addr = Ok w ->
  decode w = Ok i ->
  cond_and (cc s) (cond i) <> NEVER ->
  op i = HALT ->
  0 <= reg_target i < 16 -> 0 <= reg_src1 i < 16 -> 0 <= reg_src2 i < 16 ->
  alu_exec (op i) (reg_value s0 (reg_src1 i))
    (reg_value s0 (reg_src2 i) + offset i) = Ok (result, cc') ->
  run (S fuel) from_addr single_step s
  = ({| memory := memory s; registers := pc_stepped s0;
        cc := cc'; halted := true |},
     (if single_step then [Input 0] else [])
     ++ [Notify (mkCPUStep s0 from_addr w i)],
     Ok (Some tt))
  /\ from_option Register_get 0 (pc_stepped s0 !! pc) = from_addr + 1.
Proof.
  intros s0 Hok Hf Hd Hc Hop Ht H1 H2 Halu.
  assert (Hok0 : registers_ok (registers s0) = true)
    by (apply registers_ok_alter, Hok).
  assert (Hpc0 : pc_value s0 = from_addr)
    by (apply put_then_get; [exact Hok|unfold pc; lia]).
  pose proof (registers_ok_length _ Hok0) as Hlen0.
  assert (Hstep : step s0
                  = ({| memory := memory s; registers := pc_stepped s0;
                        cc := cc'; halted := true |},
                     [Notify (mkCPUStep s0 from_addr w i)], Ok tt)).
  { assert (Hf0 : mem_get (memory s0) (pc_value s0) = Ok w)
      by (rewrite Hpc0; exact Hf).
    pose proof (step_halted s0 w i result cc' Hlen0 Hf0 Hd Hc Hop Ht H1 H2 Halu)
      as Hstep.
    rewrite Hpc0 in Hstep. exact Hstep. }
  split.
  - unfold run.
    rewrite (bind_silent _ _ s _ tt eq_refl).
    rewrite (bind_silent _ _ _ _ tt (reg_put_eq pc from_addr _)).
    match goal with
    | |- run_loop _ _ _ ?x = _ => change x with s0
    end.
    rewrite (run_loop_iteration fuel single_step 0 s0 _ _ eq_refl Hstep).
    rewrite run_loop_halted by reflexivity. reflexivity.
  - rewrite (pc_stepped_pc s0 Hok0), Hpc0. reflexivity.
Qed.

End More.

(** *** The theorems at work on the two small platforms *)

Lemma step_fetch_or_decode_raises_witness :
  step (Demo.cpu_on [] 15) = (Demo.cpu_on [] 15, [], Raise CollaboratorError)
  /\ step (Demo.cpu_on [0] 15) = (Demo.cpu_on [0] 15, [], Raise CollaboratorError).
Proof.
  split.
  - apply (step_fetch_or_decode_raises (Demo.cpu_on [] 15) CollaboratorError).
    left. reflexivity.
  - apply (step_fetch_or_decode_raises (Demo.cpu_on [0] 15) CollaboratorError).
    right. exists 0. split; reflexivity.
Defined.

Lemma step_bad_register_index_witness :
  @step Faulty.platform (Faulty.cpu_on [8])
  = (Faulty.cpu_on [8],
     [Notify (@mkCPUStep Faulty.platform (Faulty.cpu_on [8]) 0 8 Faulty.add_r16)],
     Raise IndexError).
Proof.
  apply (@step_bad_register_index Faulty.platform (Faulty.cpu_on [8]) 8
           Faulty.add_r16);
    [reflexivity | reflexivity | discriminate | left; cbn; lia].
Defined.

Lemma step_alu_raises_witness :
  @step Faulty.platform (Faulty.cpu_on [9])
  = (@mkCPU Faulty.platform (Demo.program [9])
       (@pc_stepped Faulty.platform (Faulty.cpu_on [9])) 15 false,
     [Notify (@mkCPUStep Faulty.platform (Faulty.cpu_on [9]) 0 9 Faulty.sub_r1)],
     Raise CollaboratorError).
Proof.
  apply (@step_alu_raises Faulty.platform (Faulty.cpu_on [9]) 9 Faulty.sub_r1
           CollaboratorError);
    try reflexivity; try discriminate; cbn; lia.
Defined.

Lemma step_flags_replaced_witness :
  cc (step (Demo.cpu_on [5] 15)).1.1 = 4.
Proof.
  apply (step_flags_replaced (Demo.cpu_on [5] 15) 5 Demo.jump_7 7 4);
    try reflexivity; try discriminate; cbn; lia.
Defined.

Lemma step_writes_memory_only_on_store_witness :
  exists (w : Z) (i : Instruction Z Demo.opcode),
    Demo.get (Demo.program [2; 3]) 0 = Ok w
    /\ Demo.decode_word w = Ok i
    /\ op i = Demo.oSTORE
    /\ Z.land 15 (cond i) <> 0.
Proof.
  apply (step_writes_memory_only_on_store (Demo.cpu_on [2; 3] 15)).
  intros H. apply (f_equal (fun m : gmap Z Z => m !! 100)) in H.
  vm_compute in H. discriminate H.
Defined.

Lemma step_sets_halted_only_on_halt_witness :
  halted (step (Demo.cpu_on [7] 15)).1.1 = true
  /\ exists (w : Z) (i : Instruction Z Demo.opcode),
       Demo.get (Demo.program [7]) 0 = Ok w
       /\ Demo.decode_word w = Ok i
       /\ op i = Demo.oHALT.
Proof.
  destruct (proj2 (step_sets_halted_only_on_halt (Demo.cpu_on [7] 15)))
    as (_ & Hh & w & i & Hf & Hd & Hop & _); [vm_compute; discriminate|].
  split; [exact Hh|]. exists w, i. split; [exact Hf|]. split; [exact Hd|exact Hop].
Defined.

Lemma step_load_commit_witness :
  (exists s' : CPU,
     step (@mkCPU Demo.platform (<[100 := 42]> (Demo.program [4]))
             (ZeroRegister :: Reg 7 :: replicate 14 (Reg 0)) 15 false)
     = (s', [Notify (mkCPUStep
                       (@mkCPU Demo.platform (<[100 := 42]> (Demo.program [4]))
             (ZeroRegister :: Reg 7 :: replicate 14 (Reg 0)) 15 false) 0 4 Demo.load_r2)],
        Ok tt)
     /\ reg_value s' 2 = 42)
  /\ step (Demo.cpu_on [4] 15)
     = (at_commit (Demo.cpu_on [4] 15) 4,
        [Notify (mkCPUStep (Demo.cpu_on [4] 15) 0 4 Demo.load_r2)],
        Raise CollaboratorError).
Proof.
  split.
  - destruct (step_load_commit
                (@mkCPU Demo.platform (<[100 := 42]> (Demo.program [4]))
             (ZeroRegister :: Reg 7 :: replicate 14 (Reg 0)) 15 false) 4 Demo.load_r2 100 4)
      as [Hload _]; try reflexivity; try discriminate; try (cbn; lia).
    destruct (Hload 42 ltac:(reflexivity)) as (s' & Hstep & _ & _ & _ & _ & Hval & _).
    exists s'. split; [exact Hstep|]. apply Hval. discriminate.
  - apply (proj2 (step_load_commit (Demo.cpu_on [4] 15) 4 Demo.load_r2 100 4
                    ltac:(reflexivity) ltac:(reflexivity) ltac:(reflexivity)
                    ltac:(discriminate) ltac:(reflexivity)
                    ltac:(cbn; lia) ltac:(cbn; lia) ltac:(cbn; lia)
                    ltac:(reflexivity)) CollaboratorError).
    reflexivity.
Defined.

Lemma registers_shape_kept_witness :
  reg_value (run 3 0 false (Demo.cpu_on [5; 0; 0; 0; 0; 0; 0; 7] 15)).1.1 0 = 0.
Proof.
  destruct (registers_shape_kept (Demo.cpu_on [5; 0; 0; 0; 0; 0; 0; 7] 15)
              ltac:(reflexivity)) as (_ & _ & Hrun).
  apply (Hrun 3%nat 0 false).
Defined.

Lemma run_returns_only_on_halt_witness :
  halted (run 3 0 false (Demo.cpu_on [5; 0; 0; 0; 0; 0; 0; 7] 15)).1.1 = true.
Proof.
  apply (run_returns_only_on_halt 3 0 false
           (Demo.cpu_on [5; 0; 0; 0; 0; 0; 0; 7] 15)
           (run 3 0 false (Demo.cpu_on [5; 0; 0; 0; 0; 0; 0; 7] 15)).1.1
           (run 3 0 false (Demo.cpu_on [5; 0; 0; 0; 0; 0; 0; 7] 15)).1.2).
  vm_compute. reflexivity.
Defined.

Lemma run_loop_propagates_witness :
  run_loop 4 true 0 (Demo.cpu_on [] 15)
  = (Demo.cpu_on [] 15, [Input 0] ++ [], Raise CollaboratorError).
Proof.
  apply (run_loop_propagates 3 true 0 (Demo.cpu_on [] 15) (Demo.cpu_on [] 15) []
           CollaboratorError); reflexivity.
Defined.

Lemma run_restarts_witness :
  (run 1 0 false
     (@mkCPU Demo.platform (Demo.program [7])
        (ZeroRegister :: Reg 7 :: replicate 13 (Reg 0) ++ [Reg 5]) 15 true)).1.2
  = [Notify (mkCPUStep (Demo.cpu_on [7] 15) 0 7 Demo.halt_r0)].
Proof.
  pose proof (run_restarts
                (@mkCPU Demo.platform (Demo.program [7])
                   (ZeroRegister :: Reg 7 :: replicate 13 (Reg 0) ++ [Reg 5])
                   15 true)
                0 7 Demo.halt_r0 0 2 0 false
                ltac:(reflexivity) ltac:(reflexivity) ltac:(reflexivity)
                ltac:(discriminate) ltac:(reflexivity)
                ltac:(cbn; lia) ltac:(cbn; lia) ltac:(cbn; lia)
                ltac:(reflexivity)) as [Hrun _].
  rewrite Hrun. vm_compute. reflexivity.
Defined.

End CPUMore.
